(** * ComposerCommandEngine (hwc3): command dispatch and the present/validate protocol

    Shallow embedding of [base/hwc3/ComposerCommandEngine.cpp].  The engine is
    a state machine over its own members ([mCommandIndex], [mWriter]) and two
    collaborators reached through interfaces ([mHal], [mResources]).  Each
    C++ member function becomes a computation in a small state monad over the
    engine; the collaborators are type classes, so every theorem holds for
    every hardware abstraction and every resource manager. *)

From Stdlib Require Import ZArith List Bool Lia Sorted PrimFloat.
Import ListNotations.
Local Open Scope Z_scope.

(** ** Machine integers *)

Definition int32_t := Z.
Definition uint32_t := Z.
Definition int64_t := Z.
Definition uint64_t := Z.

Definition INT32_MAX : Z := 2147483647.

(** Two's-complement reduction to the 32-bit signed range (what [++] on an
    [int32_t] gives on the targets this code is built for). *)
Definition wrap_int32 (z : Z) : int32_t := (z + 2 ^ 31) mod 2 ^ 32 - 2 ^ 31.

(** Implicit conversions at the [uint64_t display] parameters. *)
Definition to_uint64 (z : Z) : uint64_t := z mod 2 ^ 64.
Definition to_int64 (z : Z) : int64_t := (z + 2 ^ 63) mod 2 ^ 64 - 2 ^ 63.

(** Status codes of <hardware/hwcomposer2.h> and IComposerClient that the
    engine compares against. *)
Definition HWC2_ERROR_NONE : int32_t := 0.
Definition HWC2_ERROR_BAD_DISPLAY : int32_t := 2.
Definition HWC2_ERROR_BAD_LAYER : int32_t := 3.
Definition HWC2_ERROR_HAS_CHANGES : int32_t := 5.
Definition EX_NOT_VALIDATED : int32_t := 7.

(** ** AIDL payloads

    The engine forwards these values without inspecting them; enumerations
    are kept as their underlying integers. *)

Definition Composition := int32_t.
Definition Dataspace := int32_t.
Definition BlendMode := int32_t.
Definition Transform := int32_t.
Definition PixelFormat := int32_t.
Definition ClockMonotonicTimestamp := int64_t.

(** A file descriptor wrapped by ndk::ScopedFileDescriptor; -1 is "none". *)
Definition ScopedFileDescriptor := Z.

Record Point := { pt_x : int32_t; pt_y : int32_t }.
Record Rect := { left : int32_t; top : int32_t; right : int32_t; bottom : int32_t }.
Record FRect := { fleft : float; ftop : float; fright : float; fbottom : float }.
Record Color := { r : float; g : float; b : float; a : float }.
Record PerFrameMetadata := { pfm_key : int32_t; pfm_value : float }.
Record PerFrameMetadataBlob := { pfb_key : int32_t; pfb_blob : list Z }.
Record AidlNativeHandle := { fds : list Z; ints : list int32_t }.
Record ClientTargetProperty := { pixelFormat : PixelFormat; ctp_dataspace : Dataspace }.

(** [buffer_handle_t] is a pointer to a native handle; [None] is [nullptr]. *)
Definition buffer_handle_t := option AidlNativeHandle.

(** [::android::makeFromAidl]: the native handle of an AIDL handle. *)
Definition makeFromAidl (h : AidlNativeHandle) : buffer_handle_t := Some h.

(** The single-field parcelables that wrap a value in a command. *)
Module ParcelableBlendMode.
Record t := { blendMode : BlendMode }.
End ParcelableBlendMode.

Module ParcelableComposition.
Record t := { composition : Composition }.
End ParcelableComposition.

Module ParcelableDataspace.
Record t := { dataspace : Dataspace }.
End ParcelableDataspace.

Module ParcelableTransform.
Record t := { transform : Transform }.
End ParcelableTransform.

Module PlaneAlpha.
Record t := { alpha : float }.
End PlaneAlpha.

Module ZOrder.
Record t := { z : int32_t }.
End ZOrder.

Module DisplayBrightness.
Record t := { brightness : float }.
End DisplayBrightness.

Module Buffer.
Record t := { slot : int32_t; handle : option AidlNativeHandle; fence : ScopedFileDescriptor }.
End Buffer.

Module ClientTarget.
Record t := { buffer : Buffer.t; dataspace : Dataspace; damage : list Rect }.
End ClientTarget.

Module LayerCommand.
Record t := {
  layer : int64_t;
  cursorPosition : option Point;
  buffer : option Buffer.t;
  damage : option (list (option Rect));
  blendMode : option ParcelableBlendMode.t;
  color : option Color;
  composition : option ParcelableComposition.t;
  dataspace : option ParcelableDataspace.t;
  displayFrame : option Rect;
  planeAlpha : option PlaneAlpha.t;
  sidebandStream : option AidlNativeHandle;
  sourceCrop : option FRect;
  transform : option ParcelableTransform.t;
  visibleRegion : option (list (option Rect));
  z : option ZOrder.t;
  colorTransform : option (list float);
  perFrameMetadata : option (list (option PerFrameMetadata));
  perFrameMetadataBlob : option (list (option PerFrameMetadataBlob))
}.
End LayerCommand.

Module DisplayCommand.
Record t := {
  display : int64_t;
  layers : list LayerCommand.t;
  colorTransformMatrix : option (list float);
  brightness : option DisplayBrightness.t;
  clientTarget : option ClientTarget.t;
  virtualDisplayOutputBuffer : option Buffer.t;
  expectedPresentTime : option ClockMonotonicTimestamp;
  validateDisplay : bool;
  acceptDisplayChanges : bool;
  presentDisplay : bool;
  presentOrValidateDisplay : bool
}.
End DisplayCommand.

(** ** The hardware abstraction ([mHal])

    One constructor per HAL entry point the engine uses, carrying the
    arguments of the call.  A call answers with a status and, for three
    entry points, with the values left in its out-parameters. *)

Module Hal.
Inductive Call : Type :=
| acceptDisplayChanges (display : int64_t)
| getHasClientComposition (display : int64_t)
| presentDisplay (display : int64_t)
| setClientTarget (display : int64_t) (target : buffer_handle_t)
    (fence : ScopedFileDescriptor) (dataspace : Dataspace) (damage : list Rect)
| setColorTransform (display : int64_t) (matrix : list float)
| setDisplayBrightness (display : int64_t) (brightness : float)
| setExpectedPresentTime (display : int64_t) (t : option ClockMonotonicTimestamp)
| setLayerBlendMode (display layer : int64_t) (mode : BlendMode)
| setLayerBuffer (display layer : int64_t) (buffer : buffer_handle_t)
    (fence : ScopedFileDescriptor)
| setLayerColor (display layer : int64_t) (color : Color)
| setLayerColorTransform (display layer : int64_t) (matrix : list float)
| setLayerCompositionType (display layer : int64_t) (composition : Composition)
| setLayerCursorPosition (display layer : int64_t) (x y : int32_t)
| setLayerDataspace (display layer : int64_t) (dataspace : Dataspace)
| setLayerDisplayFrame (display layer : int64_t) (rect : Rect)
| setLayerPerFrameMetadata (display layer : int64_t)
    (metadata : list (option PerFrameMetadata))
| setLayerPerFrameMetadataBlobs (display layer : int64_t)
    (metadata : list (option PerFrameMetadataBlob))
| setLayerPlaneAlpha (display layer : int64_t) (alpha : float)
| setLayerSidebandStream (display layer : int64_t) (stream : buffer_handle_t)
| setLayerSourceCrop (display layer : int64_t) (crop : FRect)
| setLayerSurfaceDamage (display layer : int64_t) (damage : list (option Rect))
| setLayerTransform (display layer : int64_t) (transform : Transform)
| setLayerVisibleRegion (display layer : int64_t) (visible : list (option Rect))
| setLayerZOrder (display layer : int64_t) (z : int32_t)
| setOutputBuffer (display : int64_t) (buffer : buffer_handle_t)
    (fence : ScopedFileDescriptor)
| validateDisplay (display : int64_t).

Record ValidateOut := {
  changedLayers : list int64_t;
  compositionTypes : list Composition;
  displayRequestMask : uint32_t;
  requestedLayers : list int64_t;
  requestMasks : list int32_t;
  clientTargetProperty : ClientTargetProperty
}.

Record PresentOut := {
  presentFence : ScopedFileDescriptor;
  layers : list int64_t;
  fences : list ScopedFileDescriptor
}.

(** What a call leaves in its out-parameters. *)
Definition Out (c : Call) : Type :=
  match c with
  | validateDisplay _ => ValidateOut
  | presentDisplay _ => PresentOut
  | getHasClientComposition _ => bool
  | _ => unit
  end.

(** The out-parameters as the engine initialises them before the call. *)
Definition initialOut (c : Call) : Out c :=
  match c with
  | validateDisplay _ =>
      {| changedLayers := []; compositionTypes := []; displayRequestMask := 0;
         requestedLayers := []; requestMasks := [];
         clientTargetProperty := {| pixelFormat := 1; ctp_dataspace := 0 |} |}
  | presentDisplay _ => {| presentFence := -1; layers := []; fences := [] |}
  | getHasClientComposition _ => false
  | _ => tt
  end.

Definition isValidate (c : Call) : bool :=
  match c with validateDisplay _ => true | _ => false end.
Definition isAccept (c : Call) : bool :=
  match c with acceptDisplayChanges _ => true | _ => false end.
Definition isPresent (c : Call) : bool :=
  match c with presentDisplay _ => true | _ => false end.
End Hal.

Class IComposerHal (H : Type) := {
  halCall : forall c : Hal.Call, H -> (int32_t * Hal.Out c) * H
}.

(** ** The resource manager ([mResources]) *)

Module Res.
(** The four buffer resolutions; each answers with a status and the
    resolved handle (the value of the out-parameter after the call). *)
Inductive Call : Type :=
| getDisplayClientTarget (display : int64_t) (slot : int32_t) (fromCache : bool)
    (handle : buffer_handle_t)
| getDisplayOutputBuffer (display : int64_t) (slot : int32_t) (fromCache : bool)
    (handle : buffer_handle_t)
| getLayerBuffer (display layer : int64_t) (slot : int32_t) (fromCache : bool)
    (handle : buffer_handle_t)
| getLayerSidebandStream (display layer : int64_t) (handle : buffer_handle_t).
End Res.

(** Modelled from the spec: the resource manager keeps, per display, a
    must-validate flag that [setDisplayMustValidateState] writes and
    [mustValidateDisplay] reads; clearing it is observable
    ([mustValidate_cleared]).  [createReleaser] and [destroyReleaser] bracket
    the life of the scoped releaser object of one resolution. *)
Class IResourceManager (R : Type) := {
  mustValidateDisplay : int64_t -> R -> bool;
  setDisplayMustValidateState : int64_t -> bool -> R -> R;
  resolve : Res.Call -> R -> (int32_t * buffer_handle_t) * R;
  createReleaser : bool -> R -> R;
  destroyReleaser : bool -> R -> R;
  mustValidate_cleared :
    forall display r,
      mustValidateDisplay display (setDisplayMustValidateState display false r) = false
}.

(** ** The result writer ([mWriter]) *)

Module PresentOrValidate.
Inductive Result := Validated | Presented.
End PresentOrValidate.

Inductive CommandResultPayload : Type :=
| CommandError (commandIndex : int32_t) (errorCode : int32_t)
| ChangedCompositionTypes (display : int64_t) (layers : list int64_t)
    (types : list Composition)
| DisplayRequest (display : int64_t) (mask : uint32_t) (layers : list int64_t)
    (masks : list int32_t)
| PresentFence (display : int64_t) (fence : ScopedFileDescriptor)
| ReleaseFences (display : int64_t) (layers : list int64_t)
    (fences : list ScopedFileDescriptor)
| PresentOrValidateResult (display : int64_t) (result : PresentOrValidate.Result).

(** Modelled from the spec: the Result Accumulator (ComposerServiceWriter,
    declared outside this file) records outcomes in the order they are
    reported, one entry per report, and [getPendingCommandResults] drains
    them. *)
Module Writer.
Definition t := list CommandResultPayload.

Definition setError (index err : int32_t) (w : t) : t :=
  w ++ [CommandError index err].
Definition setChangedCompositionTypes (display : int64_t) (layers : list int64_t)
    (types : list Composition) (w : t) : t :=
  w ++ [ChangedCompositionTypes display layers types].
Definition setDisplayRequests (display : int64_t) (mask : uint32_t)
    (layers : list int64_t) (masks : list int32_t) (w : t) : t :=
  w ++ [DisplayRequest display mask layers masks].
Definition setPresentFence (display : int64_t) (fence : ScopedFileDescriptor) (w : t) : t :=
  w ++ [PresentFence display fence].
Definition setReleaseFences (display : int64_t) (layers : list int64_t)
    (fences : list ScopedFileDescriptor) (w : t) : t :=
  w ++ [ReleaseFences display layers fences].
Definition setPresentOrValidateResult (display : int64_t)
    (result : PresentOrValidate.Result) (w : t) : t :=
  w ++ [PresentOrValidateResult display result].
Definition getPendingCommandResults (w : t) : list CommandResultPayload * t :=
  (w, []).
End Writer.

(** The command indices carried by the error entries of a result list, in
    emission order.  Only error entries carry a command index. *)
Fixpoint errorIndices (l : list CommandResultPayload) : list int32_t :=
  match l with
  | [] => []
  | CommandError i _ :: l' => i :: errorIndices l'
  | _ :: l' => errorIndices l'
  end.

Definition isProtocolOutcome (p : CommandResultPayload) : bool :=
  match p with PresentOrValidateResult _ _ => true | _ => false end.

Definition isError (p : CommandResultPayload) : bool :=
  match p with CommandError _ _ => true | _ => false end.

(** The distinct values of a list of indices. *)
Definition indexSet (l : list int32_t) : list int32_t := nodup Z.eq_dec l.

(** ** The engine and its monad *)

Section Engine.
Context {H R : Type} `{IComposerHal H} `{IResourceManager R}.

(** The members of ComposerCommandEngine, and the log of the HAL calls
    issued so far (in call order), which the theorems observe. *)
Record Engine := {
  mCommandIndex : int32_t;
  mWriter : Writer.t;
  mHal : H;
  mResources : R;
  halCalls : list Hal.Call
}.

Definition M (A : Type) : Type := Engine -> A * Engine.

Definition ret {A} (v : A) : M A := fun e => (v, e).
Definition bind {A B} (m : M A) (k : A -> M B) : M B :=
  fun e => let (v, e') := m e in k v e'.

Definition get_mCommandIndex : M int32_t := fun e => (mCommandIndex e, e).

Definition set_mCommandIndex (i : int32_t) : M unit := fun e =>
  (tt, {| mCommandIndex := i; mWriter := mWriter e; mHal := mHal e;
          mResources := mResources e; halCalls := halCalls e |}).

(** [mWriter->f(...)] for the recording entry points. *)
Definition writer (f : Writer.t -> Writer.t) : M unit := fun e =>
  (tt, {| mCommandIndex := mCommandIndex e; mWriter := f (mWriter e); mHal := mHal e;
          mResources := mResources e; halCalls := halCalls e |}).

Definition writer_getPendingCommandResults : M (list CommandResultPayload) := fun e =>
  let (res, w) := Writer.getPendingCommandResults (mWriter e) in
  (res, {| mCommandIndex := mCommandIndex e; mWriter := w; mHal := mHal e;
           mResources := mResources e; halCalls := halCalls e |}).

(** [mHal->c(...)]: the call is logged and the HAL moves on. *)
Definition hal (c : Hal.Call) : M (int32_t * Hal.Out c) := fun e =>
  let (reply, h) := halCall c (mHal e) in
  (reply, {| mCommandIndex := mCommandIndex e; mWriter := mWriter e; mHal := h;
             mResources := mResources e; halCalls := halCalls e ++ [c] |}).

(** [mResources->...] *)
Definition resources_update (f : R -> R) : M unit := fun e =>
  (tt, {| mCommandIndex := mCommandIndex e; mWriter := mWriter e; mHal := mHal e;
          mResources := f (mResources e); halCalls := halCalls e |}).

Definition resources_mustValidateDisplay (display : int64_t) : M bool := fun e =>
  (mustValidateDisplay display (mResources e), e).

Definition resources_resolve (c : Res.Call) : M (int32_t * buffer_handle_t) := fun e =>
  let (reply, r) := resolve c (mResources e) in
  (reply, {| mCommandIndex := mCommandIndex e; mWriter := mWriter e; mHal := mHal e;
             mResources := r; halCalls := halCalls e |}).

(** [for (const auto& x : xs) body(x);] *)
Fixpoint forEach {A} (xs : list A) (body : A -> M unit) : M unit :=
  match xs with
  | [] => ret tt
  | x :: xs' => bind (body x) (fun _ => forEach xs' body)
  end.
End Engine.

Arguments Engine H R : clear implicits.
Arguments M H R A : clear implicits.

Declare Scope engine_scope.
Delimit Scope engine_scope with engine.
Notation "x <- m ;; k" := (bind m (fun x => k))
  (at level 61, m at next level, right associativity) : engine_scope.
Notation "' pat <- m ;; k" := (bind m (fun v => match v with pat => k end))
  (at level 61, pat pattern, m at next level, right associativity) : engine_scope.
Notation "m ;; k" := (bind m (fun _ => k))
  (at level 61, right associativity) : engine_scope.
Local Open Scope engine_scope.

(** C truthiness of a status: [if (err)]. *)
Definition failed (err : int32_t) : bool := negb (err =? 0).

Section Execute.
Context {H R : Type} `{IComposerHal H} `{IResourceManager R}.

Local Abbreviation M := (M H R).

(** [mWriter->setError(mCommandIndex, err)] *)
Definition setError_at_mCommandIndex (err : int32_t) : M unit :=
  index <- get_mCommandIndex ;;
  writer (Writer.setError index err).

(** The dispatch macros: run the handler only when the field is there. *)
Definition DISPATCH_LAYER_COMMAND {A} (field : option A) (funcName : A -> M unit) : M unit :=
  match field with
  | Some v => funcName v
  | None => ret tt
  end.

Definition DISPATCH_DISPLAY_COMMAND {A} (field : option A) (funcName : A -> M unit)
    : M unit :=
  match field with
  | Some v => funcName v
  | None => ret tt
  end.

Definition DISPATCH_DISPLAY_BOOL_COMMAND {A} (field : bool) (funcName : M A) : M unit :=
  if field then funcName ;; ret tt else ret tt.

Definition DISPATCH_DISPLAY_BOOL_COMMAND_AND_DATA {A D} (field : bool) (data : D)
    (funcName : D -> M A) : M unit :=
  if field then funcName data ;; ret tt else ret tt.

Definition executeValidateDisplayInternal (display : int64_t) : M int32_t :=
  '(err, out) <- hal (Hal.validateDisplay display) ;;
  resources_update (setDisplayMustValidateState display false) ;;
  (if (err =? HWC2_ERROR_NONE) || (err =? HWC2_ERROR_HAS_CHANGES) then
     writer (Writer.setChangedCompositionTypes display (Hal.changedLayers out)
               (Hal.compositionTypes out)) ;;
     writer (Writer.setDisplayRequests display (Hal.displayRequestMask out)
               (Hal.requestedLayers out) (Hal.requestMasks out))
   else
     setError_at_mCommandIndex err) ;;
  ret err.

Definition executeSetColorTransform (display : int64_t) (matrix : list float) : M unit :=
  '(err, _) <- hal (Hal.setColorTransform display matrix) ;;
  if failed err then setError_at_mCommandIndex err else ret tt.

Definition executeSetClientTarget (display : int64_t) (command : ClientTarget.t) : M unit :=
  let buffer := ClientTarget.buffer command in
  let useCache := match Buffer.handle buffer with None => true | Some _ => false end in
  let handle := match Buffer.handle buffer with
                | None => None
                | Some h => makeFromAidl h
                end in
  resources_update (createReleaser true) ;;
  '(err, clientTarget) <-
     resources_resolve (Res.getDisplayClientTarget display (Buffer.slot buffer)
                          useCache handle) ;;
  (if negb (failed err) then
     '(err, _) <- hal (Hal.setClientTarget display clientTarget (Buffer.fence buffer)
                         (ClientTarget.dataspace command) (ClientTarget.damage command)) ;;
     if failed err then setError_at_mCommandIndex err else ret tt
   else
     setError_at_mCommandIndex err) ;;
  resources_update (destroyReleaser true).

Definition executeSetOutputBuffer (display0 : int64_t) (buffer : Buffer.t) : M unit :=
  let display := to_uint64 display0 in
  let useCache := match Buffer.handle buffer with None => true | Some _ => false end in
  let handle := match Buffer.handle buffer with
                | None => None
                | Some h => makeFromAidl h
                end in
  resources_update (createReleaser true) ;;
  '(err, outputBuffer) <-
     resources_resolve (Res.getDisplayOutputBuffer (to_int64 display) (Buffer.slot buffer)
                          useCache handle) ;;
  (if negb (failed err) then
     '(err, _) <- hal (Hal.setOutputBuffer (to_int64 display) outputBuffer
                         (Buffer.fence buffer)) ;;
     if failed err then setError_at_mCommandIndex err else ret tt
   else
     setError_at_mCommandIndex err) ;;
  resources_update (destroyReleaser true).

Definition executeSetExpectedPresentTimeInternal (display : int64_t)
    (expectedPresentTime : option ClockMonotonicTimestamp) : M unit :=
  hal (Hal.setExpectedPresentTime display expectedPresentTime) ;;
  ret tt.

Definition executeValidateDisplay (display : int64_t)
    (expectedPresentTime : option ClockMonotonicTimestamp) : M unit :=
  executeSetExpectedPresentTimeInternal display expectedPresentTime ;;
  executeValidateDisplayInternal display ;;
  ret tt.

Definition executeSetDisplayBrightness (display0 : int64_t) (command : DisplayBrightness.t)
    : M unit :=
  let display := to_uint64 display0 in
  '(err, _) <- hal (Hal.setDisplayBrightness (to_int64 display)
                      (DisplayBrightness.brightness command)) ;;
  if failed err then setError_at_mCommandIndex err else ret tt.

Definition executeAcceptDisplayChanges (display : int64_t) : M unit :=
  '(err, _) <- hal (Hal.acceptDisplayChanges display) ;;
  if failed err then setError_at_mCommandIndex err else ret tt.

Definition executePresentDisplay (display : int64_t) : M int32_t :=
  '(err, out) <- hal (Hal.presentDisplay display) ;;
  (if negb (failed err) then
     (if negb (Hal.presentFence out =? -1) then
        writer (Writer.setPresentFence display (Hal.presentFence out))
      else ret tt) ;;
     writer (Writer.setReleaseFences display (Hal.layers out) (Hal.fences out))
   else ret tt) ;;
  ret err.

Definition executePresentOrValidateDisplay (display : int64_t)
    (expectedPresentTime : option ClockMonotonicTimestamp) : M unit :=
  executeSetExpectedPresentTimeInternal display expectedPresentTime ;;
  (* First try to Present as is. *)
  mustValidate <- resources_mustValidateDisplay display ;;
  presentErr <- (if mustValidate then ret EX_NOT_VALIDATED
                 else executePresentDisplay display) ;;
  if negb (failed presentErr) then
    writer (Writer.setPresentOrValidateResult display PresentOrValidate.Presented)
  else
    (* Fallback to validate *)
    validateErr <- executeValidateDisplayInternal display ;;
    if negb (validateErr =? HWC2_ERROR_NONE) && negb (validateErr =? HWC2_ERROR_HAS_CHANGES)
    then ret tt
    else
      cannotPresentDirectly <-
        (if validateErr =? HWC2_ERROR_HAS_CHANGES then ret true
         else
           '(err, hasClientComp) <- hal (Hal.getHasClientComposition display) ;;
           ret ((err =? HWC2_ERROR_NONE) && hasClientComp)) ;;
      if cannotPresentDirectly : bool then
        writer (Writer.setPresentOrValidateResult display PresentOrValidate.Validated)
      else
        (* Try to call present again *)
        executeAcceptDisplayChanges display ;;
        presentErr <- executePresentDisplay display ;;
        if negb (failed presentErr) then
          writer (Writer.setPresentOrValidateResult display PresentOrValidate.Presented)
        else ret tt.

Definition executeSetLayerCursorPosition (display layer : int64_t) (cursorPosition : Point)
    : M unit :=
  '(err, _) <- hal (Hal.setLayerCursorPosition display layer (pt_x cursorPosition)
                      (pt_y cursorPosition)) ;;
  if failed err then setError_at_mCommandIndex err else ret tt.

Definition executeSetLayerBuffer (display layer : int64_t) (buffer : Buffer.t) : M unit :=
  let useCache := match Buffer.handle buffer with None => true | Some _ => false end in
  let handle := match Buffer.handle buffer with
                | None => None
                | Some h => makeFromAidl h
                end in
  resources_update (createReleaser true) ;;
  '(err, hwcBuffer) <-
     resources_resolve (Res.getLayerBuffer display layer (Buffer.slot buffer)
                          useCache handle) ;;
  (if negb (failed err) then
     '(err, _) <- hal (Hal.setLayerBuffer display layer hwcBuffer (Buffer.fence buffer)) ;;
     if failed err then setError_at_mCommandIndex err else ret tt
   else
     setError_at_mCommandIndex err) ;;
  resources_update (destroyReleaser true).

Definition executeSetLayerSurfaceDamage (display layer : int64_t)
    (damage : list (option Rect)) : M unit :=
  '(err, _) <- hal (Hal.setLayerSurfaceDamage display layer damage) ;;
  if failed err then setError_at_mCommandIndex err else ret tt.

Definition executeSetLayerBlendMode (display layer : int64_t)
    (blendMode : ParcelableBlendMode.t) : M unit :=
  '(err, _) <- hal (Hal.setLayerBlendMode display layer
                      (ParcelableBlendMode.blendMode blendMode)) ;;
  if failed err then setError_at_mCommandIndex err else ret tt.

Definition executeSetLayerColor (display layer : int64_t) (color : Color) : M unit :=
  '(err, _) <- hal (Hal.setLayerColor display layer color) ;;
  if failed err then setError_at_mCommandIndex err else ret tt.

Definition executeSetLayerComposition (display layer : int64_t)
    (composition : ParcelableComposition.t) : M unit :=
  '(err, _) <- hal (Hal.setLayerCompositionType display layer
                      (ParcelableComposition.composition composition)) ;;
  if failed err then setError_at_mCommandIndex err else ret tt.

Definition executeSetLayerDataspace (display layer : int64_t)
    (dataspace : ParcelableDataspace.t) : M unit :=
  '(err, _) <- hal (Hal.setLayerDataspace display layer
                      (ParcelableDataspace.dataspace dataspace)) ;;
  if failed err then setError_at_mCommandIndex err else ret tt.

Definition executeSetLayerDisplayFrame (display layer : int64_t) (rect : Rect) : M unit :=
  '(err, _) <- hal (Hal.setLayerDisplayFrame display layer rect) ;;
  if failed err then setError_at_mCommandIndex err else ret tt.

Definition executeSetLayerPlaneAlpha (display layer : int64_t) (planeAlpha : PlaneAlpha.t)
    : M unit :=
  '(err, _) <- hal (Hal.setLayerPlaneAlpha display layer (PlaneAlpha.alpha planeAlpha)) ;;
  if failed err then setError_at_mCommandIndex err else ret tt.

Definition executeSetLayerSidebandStream (display layer : int64_t)
    (sidebandStream : AidlNativeHandle) : M unit :=
  let handle := makeFromAidl sidebandStream in
  resources_update (createReleaser false) ;;
  '(err, stream) <- resources_resolve (Res.getLayerSidebandStream display layer handle) ;;
  err <- (if failed err then
            '(err, _) <- hal (Hal.setLayerSidebandStream display layer stream) ;;
            ret err
          else ret err) ;;
  (if failed err then setError_at_mCommandIndex err else ret tt) ;;
  resources_update (destroyReleaser false).

Definition executeSetLayerSourceCrop (display layer : int64_t) (sourceCrop : FRect)
    : M unit :=
  '(err, _) <- hal (Hal.setLayerSourceCrop display layer sourceCrop) ;;
  if failed err then setError_at_mCommandIndex err else ret tt.

Definition executeSetLayerTransform (display layer : int64_t)
    (transform : ParcelableTransform.t) : M unit :=
  '(err, _) <- hal (Hal.setLayerTransform display layer
                      (ParcelableTransform.transform transform)) ;;
  if failed err then setError_at_mCommandIndex err else ret tt.

Definition executeSetLayerVisibleRegion (display layer : int64_t)
    (visibleRegion : list (option Rect)) : M unit :=
  '(err, _) <- hal (Hal.setLayerVisibleRegion display layer visibleRegion) ;;
  if failed err then setError_at_mCommandIndex err else ret tt.

Definition executeSetLayerZOrder (display layer : int64_t) (zOrder : ZOrder.t) : M unit :=
  '(err, _) <- hal (Hal.setLayerZOrder display layer (ZOrder.z zOrder)) ;;
  if failed err then setError_at_mCommandIndex err else ret tt.

Definition executeSetLayerPerFrameMetadata (display layer : int64_t)
    (perFrameMetadata : list (option PerFrameMetadata)) : M unit :=
  '(err, _) <- hal (Hal.setLayerPerFrameMetadata display layer perFrameMetadata) ;;
  if failed err then setError_at_mCommandIndex err else ret tt.

Definition executeSetLayerColorTransform (display layer : int64_t) (matrix : list float)
    : M unit :=
  '(err, _) <- hal (Hal.setLayerColorTransform display layer matrix) ;;
  if failed err then setError_at_mCommandIndex err else ret tt.

Definition executeSetLayerPerFrameMetadataBlobs (display layer : int64_t)
    (metadata : list (option PerFrameMetadataBlob)) : M unit :=
  '(err, _) <- hal (Hal.setLayerPerFrameMetadataBlobs display layer metadata) ;;
  if failed err then setError_at_mCommandIndex err else ret tt.

Definition dispatchLayerCommand (display : int64_t) (command : LayerCommand.t) : M unit :=
  let layer := LayerCommand.layer command in
  DISPATCH_LAYER_COMMAND (LayerCommand.cursorPosition command)
    (executeSetLayerCursorPosition display layer) ;;
  DISPATCH_LAYER_COMMAND (LayerCommand.buffer command)
    (executeSetLayerBuffer display layer) ;;
  DISPATCH_LAYER_COMMAND (LayerCommand.damage command)
    (executeSetLayerSurfaceDamage display layer) ;;
  DISPATCH_LAYER_COMMAND (LayerCommand.blendMode command)
    (executeSetLayerBlendMode display layer) ;;
  DISPATCH_LAYER_COMMAND (LayerCommand.color command)
    (executeSetLayerColor display layer) ;;
  DISPATCH_LAYER_COMMAND (LayerCommand.composition command)
    (executeSetLayerComposition display layer) ;;
  DISPATCH_LAYER_COMMAND (LayerCommand.dataspace command)
    (executeSetLayerDataspace display layer) ;;
  DISPATCH_LAYER_COMMAND (LayerCommand.displayFrame command)
    (executeSetLayerDisplayFrame display layer) ;;
  DISPATCH_LAYER_COMMAND (LayerCommand.planeAlpha command)
    (executeSetLayerPlaneAlpha display layer) ;;
  DISPATCH_LAYER_COMMAND (LayerCommand.sidebandStream command)
    (executeSetLayerSidebandStream display layer) ;;
  DISPATCH_LAYER_COMMAND (LayerCommand.sourceCrop command)
    (executeSetLayerSourceCrop display layer) ;;
  DISPATCH_LAYER_COMMAND (LayerCommand.transform command)
    (executeSetLayerTransform display layer) ;;
  DISPATCH_LAYER_COMMAND (LayerCommand.visibleRegion command)
    (executeSetLayerVisibleRegion display layer) ;;
  DISPATCH_LAYER_COMMAND (LayerCommand.z command)
    (executeSetLayerZOrder display layer) ;;
  DISPATCH_LAYER_COMMAND (LayerCommand.colorTransform command)
    (executeSetLayerColorTransform display layer) ;;
  DISPATCH_LAYER_COMMAND (LayerCommand.perFrameMetadata command)
    (executeSetLayerPerFrameMetadata display layer) ;;
  DISPATCH_LAYER_COMMAND (LayerCommand.perFrameMetadataBlob command)
    (executeSetLayerPerFrameMetadataBlobs display layer).

Definition dispatchDisplayCommand (command : DisplayCommand.t) : M unit :=
  let display := DisplayCommand.display command in
  forEach (DisplayCommand.layers command) (fun layerCmd =>
    dispatchLayerCommand display layerCmd) ;;
  DISPATCH_DISPLAY_COMMAND (DisplayCommand.colorTransformMatrix command)
    (executeSetColorTransform display) ;;
  DISPATCH_DISPLAY_COMMAND (DisplayCommand.clientTarget command)
    (executeSetClientTarget display) ;;
  DISPATCH_DISPLAY_COMMAND (DisplayCommand.virtualDisplayOutputBuffer command)
    (executeSetOutputBuffer display) ;;
  DISPATCH_DISPLAY_COMMAND (DisplayCommand.brightness command)
    (executeSetDisplayBrightness display) ;;
  DISPATCH_DISPLAY_BOOL_COMMAND_AND_DATA (DisplayCommand.validateDisplay command)
    (DisplayCommand.expectedPresentTime command) (executeValidateDisplay display) ;;
  DISPATCH_DISPLAY_BOOL_COMMAND (DisplayCommand.acceptDisplayChanges command)
    (executeAcceptDisplayChanges display) ;;
  DISPATCH_DISPLAY_BOOL_COMMAND (DisplayCommand.presentDisplay command)
    (executePresentDisplay display) ;;
  DISPATCH_DISPLAY_BOOL_COMMAND_AND_DATA (DisplayCommand.presentOrValidateDisplay command)
    (DisplayCommand.expectedPresentTime command) (executePresentOrValidateDisplay display).

(** [init]: a fresh writer; [make_unique] does not return null. *)
Definition init : M int32_t :=
  writer (fun _ => []) ;;
  ret 0.

Definition execute (commands : list DisplayCommand.t)
    : M (int32_t * list CommandResultPayload) :=
  set_mCommandIndex 0 ;;
  forEach commands (fun command =>
    dispatchDisplayCommand command ;;
    index <- get_mCommandIndex ;;
    set_mCommandIndex (wrap_int32 (index + 1))) ;;
  result <- writer_getPendingCommandResults ;;
  ret (0, result).
End Execute.

(** ** Reference collaborators

    A hardware abstraction whose replies are read off a table, and a resource
    manager with a per-display flag table and tabulated resolutions.  They
    serve as concrete inputs on which the engine is run. *)

Record ScriptedHal := { answer : forall c : Hal.Call, int32_t * Hal.Out c }.

#[export] Instance ScriptedHal_IComposerHal : IComposerHal ScriptedHal :=
  {| halCall := fun c h => (answer h c, h) |}.

(** Every call answers with the status the table gives and leaves the
    out-parameters as they were initialised. *)
Definition halWithStatus (status : Hal.Call -> int32_t) : ScriptedHal :=
  {| answer := fun c => (status c, Hal.initialOut c) |}.

Record ScriptedResources := {
  mustValidateFlag : int64_t -> bool;
  resolution : Res.Call -> int32_t * buffer_handle_t
}.

Definition setFlag (display : int64_t) (v : bool) (r : ScriptedResources)
    : ScriptedResources :=
  {| mustValidateFlag := fun d => if d =? display then v else mustValidateFlag r d;
     resolution := resolution r |}.

Lemma setFlag_cleared (display : int64_t) (r : ScriptedResources) :
  mustValidateFlag (setFlag display false r) display = false.
Proof. unfold setFlag; simpl. now rewrite Z.eqb_refl. Qed.

#[export] Instance ScriptedResources_IResourceManager : IResourceManager ScriptedResources :=
  {| mustValidateDisplay := fun d r => mustValidateFlag r d;
     setDisplayMustValidateState := setFlag;
     resolve := fun c r => (resolution r c, r);
     createReleaser := fun _ r => r;
     destroyReleaser := fun _ r => r;
     mustValidate_cleared := setFlag_cleared |}.

(** Resources whose displays all carry the given flag and whose resolutions
    all answer with the given status and a null handle. *)
Definition resourcesWith (flag : bool) (status : Res.Call -> int32_t) : ScriptedResources :=
  {| mustValidateFlag := fun _ => flag;
     resolution := fun c => (status c, None) |}.

(** An engine right after [init], at the given collaborators. *)
Definition freshEngine {H R : Type} (h : H) (r : R) : Engine H R :=
  {| mCommandIndex := 0; mWriter := []; mHal := h; mResources := r; halCalls := [] |}.

Definition emptyLayerCommand (layer : int64_t) : LayerCommand.t :=
  {| LayerCommand.layer := layer;
     LayerCommand.cursorPosition := None; LayerCommand.buffer := None;
     LayerCommand.damage := None; LayerCommand.blendMode := None;
     LayerCommand.color := None; LayerCommand.composition := None;
     LayerCommand.dataspace := None; LayerCommand.displayFrame := None;
     LayerCommand.planeAlpha := None; LayerCommand.sidebandStream := None;
     LayerCommand.sourceCrop := None; LayerCommand.transform := None;
     LayerCommand.visibleRegion := None; LayerCommand.z := None;
     LayerCommand.colorTransform := None; LayerCommand.perFrameMetadata := None;
     LayerCommand.perFrameMetadataBlob := None |}.

(** ** Sample inputs *)

Definition okHal : ScriptedHal := halWithStatus (fun _ => HWC2_ERROR_NONE).

Definition failingValidateHal : ScriptedHal :=
  halWithStatus (fun c => if Hal.isValidate c then HWC2_ERROR_BAD_DISPLAY
                          else HWC2_ERROR_NONE).

Definition changesHal : ScriptedHal :=
  halWithStatus (fun c => if Hal.isValidate c then HWC2_ERROR_HAS_CHANGES
                          else HWC2_ERROR_NONE).

Definition failingPresentHal : ScriptedHal :=
  halWithStatus (fun c => if Hal.isPresent c then HWC2_ERROR_BAD_DISPLAY
                          else HWC2_ERROR_NONE).

Definition failingHal : ScriptedHal := halWithStatus (fun _ => HWC2_ERROR_BAD_DISPLAY).

(** Every call succeeds and the display reports client composition. *)
Definition clientCompositionHal : ScriptedHal :=
  {| answer := fun c =>
       match c as c0 return int32_t * Hal.Out c0 with
       | Hal.getHasClientComposition _ => (HWC2_ERROR_NONE, true)
       | c0 => (HWC2_ERROR_NONE, Hal.initialOut c0)
       end |}.

(** Engines after [init] whose displays need no validate, respectively must
    be validated; every resolution succeeds. *)
Definition validatedEngine (h : ScriptedHal) : Engine ScriptedHal ScriptedResources :=
  freshEngine h (resourcesWith false (fun _ => HWC2_ERROR_NONE)).

Definition unvalidatedEngine (h : ScriptedHal) : Engine ScriptedHal ScriptedResources :=
  freshEngine h (resourcesWith true (fun _ => HWC2_ERROR_NONE)).

(** An engine all of whose resolutions fail with BAD_LAYER. *)
Definition unresolvedEngine (h : ScriptedHal) : Engine ScriptedHal ScriptedResources :=
  freshEngine h (resourcesWith false (fun _ => HWC2_ERROR_BAD_LAYER)).

Definition sampleHandle : AidlNativeHandle := {| fds := []; ints := [] |}.

(** Layer 10 with z-order 5 and nothing else. *)
Definition zOrderLayerCommand : LayerCommand.t :=
  {| LayerCommand.layer := 10;
     LayerCommand.cursorPosition := None; LayerCommand.buffer := None;
     LayerCommand.damage := None; LayerCommand.blendMode := None;
     LayerCommand.color := None; LayerCommand.composition := None;
     LayerCommand.dataspace := None; LayerCommand.displayFrame := None;
     LayerCommand.planeAlpha := None; LayerCommand.sidebandStream := None;
     LayerCommand.sourceCrop := None; LayerCommand.transform := None;
     LayerCommand.visibleRegion := None;
   LayerCommand.z := Some {| ZOrder.z := 5 |};
     LayerCommand.colorTransform := None; LayerCommand.perFrameMetadata := None;
     LayerCommand.perFrameMetadataBlob := None |}.

(** Display 1: validate, with one layer command. *)
Definition validateCommand : DisplayCommand.t :=
  {| DisplayCommand.display := 1; DisplayCommand.layers := [zOrderLayerCommand];
     DisplayCommand.colorTransformMatrix := None; DisplayCommand.brightness := None;
     DisplayCommand.clientTarget := None;
     DisplayCommand.virtualDisplayOutputBuffer := None;
     DisplayCommand.expectedPresentTime := None;
     DisplayCommand.validateDisplay := true;
     DisplayCommand.acceptDisplayChanges := false;
     DisplayCommand.presentDisplay := false;
     DisplayCommand.presentOrValidateDisplay := false |}.

(** Display 1: plain present and nothing else. *)
Definition presentCommand : DisplayCommand.t :=
  {| DisplayCommand.display := 1; DisplayCommand.layers := [];
     DisplayCommand.colorTransformMatrix := None; DisplayCommand.brightness := None;
     DisplayCommand.clientTarget := None;
     DisplayCommand.virtualDisplayOutputBuffer := None;
     DisplayCommand.expectedPresentTime := None;
     DisplayCommand.validateDisplay := false;
     DisplayCommand.acceptDisplayChanges := false;
     DisplayCommand.presentDisplay := true;
     DisplayCommand.presentOrValidateDisplay := false |}.

(** Display 1: validate, accept, present and present-or-validate at once. *)
Definition everythingCommand : DisplayCommand.t :=
  {| DisplayCommand.display := 1; DisplayCommand.layers := [zOrderLayerCommand];
     DisplayCommand.colorTransformMatrix := None; DisplayCommand.brightness := None;
     DisplayCommand.clientTarget := None;
     DisplayCommand.virtualDisplayOutputBuffer := None;
     DisplayCommand.expectedPresentTime := None;
     DisplayCommand.validateDisplay := true;
     DisplayCommand.acceptDisplayChanges := true;
     DisplayCommand.presentDisplay := true;
     DisplayCommand.presentOrValidateDisplay := true |}.

Definition sampleBatch : list DisplayCommand.t := [validateCommand; presentCommand].

(** A batch whose first command records nothing under a failing HAL and
    whose second records two errors. *)
Definition lateFailureBatch : list DisplayCommand.t := [presentCommand; validateCommand].

(** Slot 3 with no handle (use the cached buffer) and fence 7. *)
Definition cachedBuffer : Buffer.t :=
  {| Buffer.slot := 3; Buffer.handle := None; Buffer.fence := 7 |}.

(** ** Observations used by the statements *)

(** How many calls of a kind a HAL log holds. *)
Definition countCalls (kind : Hal.Call -> bool) (log : list Hal.Call) : nat :=
  length (filter kind log).

(** No optional field of a layer command is populated. *)
Definition hasNoField (c : LayerCommand.t) : bool :=
  match LayerCommand.cursorPosition c, LayerCommand.buffer c, LayerCommand.damage c,
        LayerCommand.blendMode c, LayerCommand.color c, LayerCommand.composition c,
        LayerCommand.dataspace c, LayerCommand.displayFrame c, LayerCommand.planeAlpha c,
        LayerCommand.sidebandStream c, LayerCommand.sourceCrop c, LayerCommand.transform c,
        LayerCommand.visibleRegion c, LayerCommand.z c, LayerCommand.colorTransform c,
        LayerCommand.perFrameMetadata c, LayerCommand.perFrameMetadataBlob c with
  | None, None, None, None, None, None, None, None, None,
    None, None, None, None, None, None, None, None => true
  | _, _, _, _, _, _, _, _, _, _, _, _, _, _, _, _, _ => false
  end.

(** The display-level fields, and the order the specification fixes for
    them. *)
Inductive DisplayField :=
| FColorTransform | FClientTarget | FOutputBuffer | FBrightness
| FValidate | FAcceptChanges | FPresent | FPresentOrValidate.

Definition specDisplayFieldOrder : list DisplayField :=
  [FColorTransform; FClientTarget; FOutputBuffer; FBrightness;
   FValidate; FAcceptChanges; FPresent; FPresentOrValidate].

Section Observations.
Context {H R : Type} `{IComposerHal H} `{IResourceManager R}.

Local Abbreviation M := (M H R).
Local Abbreviation Engine := (Engine H R).

(** Running a computation for its final engine only. *)
Definition exec {A} (m : M A) (e : Engine) : Engine := snd (m e).

Definition withIndex (i : int32_t) (e : Engine) : Engine := exec (set_mCommandIndex i) e.

Definition drained (e : Engine) : Engine := exec writer_getPendingCommandResults e.

(** The computation leaves [mCommandIndex] alone and only appends to the
    writer, and every error entry it appends carries the index that was
    current when it started. *)
Definition records_at_index {A} (m : M A) : Prop :=
  forall e,
    mCommandIndex (exec m e) = mCommandIndex e /\
    exists l, mWriter (exec m e) = mWriter e ++ l /\
              Forall (eq (mCommandIndex e)) (errorIndices l).

(** Dispatching one command of the batch under the index of its position. *)
Definition dispatchAt (e : Engine) (ic : nat * DisplayCommand.t) : Engine :=
  exec (dispatchDisplayCommand (snd ic)) (withIndex (Z.of_nat (fst ic)) e).

(** Following the specification's words: a field that is present is
    applied by its operation, an absent one is a no-op. *)
Definition specApplyField (command : DisplayCommand.t) (e : Engine) (f : DisplayField)
    : Engine :=
  let display := DisplayCommand.display command in
  let t := DisplayCommand.expectedPresentTime command in
  match f with
  | FColorTransform =>
      match DisplayCommand.colorTransformMatrix command with
      | Some m => exec (executeSetColorTransform display m) e
      | None => e
      end
  | FClientTarget =>
      match DisplayCommand.clientTarget command with
      | Some c => exec (executeSetClientTarget display c) e
      | None => e
      end
  | FOutputBuffer =>
      match DisplayCommand.virtualDisplayOutputBuffer command with
      | Some b => exec (executeSetOutputBuffer display b) e
      | None => e
      end
  | FBrightness =>
      match DisplayCommand.brightness command with
      | Some b => exec (executeSetDisplayBrightness display b) e
      | None => e
      end
  | FValidate =>
      if DisplayCommand.validateDisplay command
      then exec (executeValidateDisplay display t) e else e
  | FAcceptChanges =>
      if DisplayCommand.acceptDisplayChanges command
      then exec (executeAcceptDisplayChanges display) e else e
  | FPresent =>
      if DisplayCommand.presentDisplay command
      then exec (executePresentDisplay display) e else e
  | FPresentOrValidate =>
      if DisplayCommand.presentOrValidateDisplay command
      then exec (executePresentOrValidateDisplay display t) e else e
  end.

(** Following the specification's words: all layer commands in list
    order, then the display-level fields in the fixed order. *)
Definition specDispatchDisplayCommand (command : DisplayCommand.t) (e : Engine) : Engine :=
  fold_left (specApplyField command) specDisplayFieldOrder
    (fold_left (fun e layerCmd =>
                  exec (dispatchLayerCommand (DisplayCommand.display command) layerCmd) e)
       (DisplayCommand.layers command) e).

(** What a successful present reports to the writer. *)
Definition presentRecords (display : int64_t) (out : Hal.PresentOut)
    : list CommandResultPayload :=
  (if negb (Hal.presentFence out =? -1)
   then [PresentFence display (Hal.presentFence out)] else []) ++
  [ReleaseFences display (Hal.layers out) (Hal.fences out)].

(** What a non-fatal validate reports to the writer. *)
Definition validateRecords (display : int64_t) (out : Hal.ValidateOut)
    : list CommandResultPayload :=
  [ChangedCompositionTypes display (Hal.changedLayers out) (Hal.compositionTypes out);
   DisplayRequest display (Hal.displayRequestMask out) (Hal.requestedLayers out)
     (Hal.requestMasks out)].

(** The reply of the HAL to a call made in a given HAL state. *)
Definition halStatus (c : Hal.Call) (h : H) : int32_t := fst (fst (halCall c h)).
Definition halOut (c : Hal.Call) (h : H) : Hal.Out c := snd (fst (halCall c h)).
Definition halNext (c : Hal.Call) (h : H) : H := snd (halCall c h).

(** The engine after one HAL call, and after recording some entries. *)
Definition afterHal (c : Hal.Call) (e : Engine) : Engine := exec (hal c) e.
Definition recording (l : list CommandResultPayload) (e : Engine) : Engine :=
  exec (writer (fun w => w ++ l)) e.

(** Validate statuses that are not hard errors. *)
Definition nonFatal (err : int32_t) : bool :=
  (err =? HWC2_ERROR_NONE) || (err =? HWC2_ERROR_HAS_CHANGES).

(** *** Way-points of one present-or-validate command

    The statuses the engine branches on and the engine states it passes
    through, in the order of the source. *)

Definition afterExpectedPresentTime (display : int64_t)
    (t : option ClockMonotonicTimestamp) (e : Engine) : Engine :=
  afterHal (Hal.setExpectedPresentTime display t) e.

(** Status of the first present attempt ([EX_NOT_VALIDATED] when the
    attempt is not made). *)
Definition firstPresentErr (display : int64_t) (t : option ClockMonotonicTimestamp)
    (e : Engine) : int32_t :=
  if mustValidateDisplay display (mResources e) then EX_NOT_VALIDATED
  else halStatus (Hal.presentDisplay display)
         (mHal (afterExpectedPresentTime display t e)).

Definition afterFirstPresent (display : int64_t) (t : option ClockMonotonicTimestamp)
    (e : Engine) : Engine :=
  if mustValidateDisplay display (mResources e)
  then afterExpectedPresentTime display t e
  else exec (executePresentDisplay display) (afterExpectedPresentTime display t e).

Definition fallbackValidateErr (display : int64_t) (t : option ClockMonotonicTimestamp)
    (e : Engine) : int32_t :=
  halStatus (Hal.validateDisplay display) (mHal (afterFirstPresent display t e)).

Definition afterFallbackValidate (display : int64_t) (t : option ClockMonotonicTimestamp)
    (e : Engine) : Engine :=
  exec (executeValidateDisplayInternal display) (afterFirstPresent display t e).

(** [getHasClientComposition(display, hasClientComp) == HWC2_ERROR_NONE &&
    hasClientComp], asked after the fallback validate. *)
Definition clientCompositionQuery (display : int64_t)
    (t : option ClockMonotonicTimestamp) (e : Engine) : bool :=
  let h := mHal (afterFallbackValidate display t e) in
  (halStatus (Hal.getHasClientComposition display) h =? HWC2_ERROR_NONE) &&
  (halOut (Hal.getHasClientComposition display) h : bool).

Definition afterAccept (display : int64_t) (t : option ClockMonotonicTimestamp)
    (e : Engine) : Engine :=
  exec (executeAcceptDisplayChanges display)
    (afterHal (Hal.getHasClientComposition display) (afterFallbackValidate display t e)).

Definition secondPresentErr (display : int64_t) (t : option ClockMonotonicTimestamp)
    (e : Engine) : int32_t :=
  halStatus (Hal.presentDisplay display) (mHal (afterAccept display t e)).

Definition afterSecondPresent (display : int64_t) (t : option ClockMonotonicTimestamp)
    (e : Engine) : Engine :=
  exec (executePresentDisplay display) (afterAccept display t e).

(** The entries and HAL calls a computation added. *)
Definition protocolOutcomes (e : Engine) : list CommandResultPayload :=
  filter isProtocolOutcome (mWriter e).

(** What the writer holds in [after] beyond what it held in [before]. *)
Definition appended (before after : Engine) : list CommandResultPayload :=
  skipn (length (mWriter before)) (mWriter after).

(** The entries each command of a batch records, command by command: the
    k-th chunk is what dispatching the k-th command under index k adds to
    the writer, from the engine the commands before it left. *)
Fixpoint batchChunks (k : nat) (commands : list DisplayCommand.t) (e : Engine)
    : list (list CommandResultPayload) :=
  match commands with
  | [] => []
  | command :: commands' =>
      appended e (dispatchAt e (k, command)) ::
      batchChunks (S k) commands' (dispatchAt e (k, command))
  end.

(** One turn of the loop of [execute] on an engine: dispatch the command,
    then step the command index. *)
Definition executeStep (e : Engine) (command : DisplayCommand.t) : Engine :=
  withIndex (wrap_int32 (mCommandIndex e + 1)) (exec (dispatchDisplayCommand command) e).

(** What the fallback validate of present-or-validate leaves in its
    out-parameters, and the status of the accept-changes that follows the
    client-composition query. *)
Definition fallbackValidateOut (display : int64_t) (t : option ClockMonotonicTimestamp)
    (e : Engine) : Hal.ValidateOut :=
  halOut (Hal.validateDisplay display) (mHal (afterFirstPresent display t e)).

Definition acceptErr (display : int64_t) (t : option ClockMonotonicTimestamp)
    (e : Engine) : int32_t :=
  halStatus (Hal.acceptDisplayChanges display)
    (mHal (afterHal (Hal.getHasClientComposition display)
             (afterFallbackValidate display t e))).

(** The same command with the plain present flag cleared. *)
Definition withoutPresent (command : DisplayCommand.t) : DisplayCommand.t :=
  {| DisplayCommand.display := DisplayCommand.display command;
     DisplayCommand.layers := DisplayCommand.layers command;
     DisplayCommand.colorTransformMatrix := DisplayCommand.colorTransformMatrix command;
     DisplayCommand.brightness := DisplayCommand.brightness command;
     DisplayCommand.clientTarget := DisplayCommand.clientTarget command;
     DisplayCommand.virtualDisplayOutputBuffer :=
       DisplayCommand.virtualDisplayOutputBuffer command;
     DisplayCommand.expectedPresentTime := DisplayCommand.expectedPresentTime command;
     DisplayCommand.validateDisplay := DisplayCommand.validateDisplay command;
     DisplayCommand.acceptDisplayChanges := DisplayCommand.acceptDisplayChanges command;
     DisplayCommand.presentDisplay := false;
     DisplayCommand.presentOrValidateDisplay :=
       DisplayCommand.presentOrValidateDisplay command |}.

(** The reading under which a hard validate error leaves the must-validate
    flag of the display as it was. *)
Definition hardErrorKeepsMustValidate (display : int64_t) (e : Engine) : Prop :=
  nonFatal (halStatus (Hal.validateDisplay display) (mHal e)) = false ->
  mustValidateDisplay display
    (mResources (exec (executeValidateDisplayInternal display) e)) =
  mustValidateDisplay display (mResources e).
End Observations.

(** ** Patterns shared by the operations *)

(** The HAL call a populated field gives rise to, if any. *)
Definition optCall {A} (field : option A) (call : A -> Hal.Call) : list Hal.Call :=
  match field with
  | Some v => [call v]
  | None => []
  end.

(** The calls of the layer fields that are forwarded to the HAL as they
    are, in the order [dispatchLayerCommand] visits them (the buffer and the
    sideband stream go through the resource manager first and are not
    listed). *)
Definition forwardedCalls (display : int64_t) (command : LayerCommand.t) : list Hal.Call :=
  let layer := LayerCommand.layer command in
  optCall (LayerCommand.cursorPosition command)
    (fun p => Hal.setLayerCursorPosition display layer (pt_x p) (pt_y p)) ++
  optCall (LayerCommand.damage command) (Hal.setLayerSurfaceDamage display layer) ++
  optCall (LayerCommand.blendMode command)
    (fun m => Hal.setLayerBlendMode display layer (ParcelableBlendMode.blendMode m)) ++
  optCall (LayerCommand.color command) (Hal.setLayerColor display layer) ++
  optCall (LayerCommand.composition command)
    (fun c => Hal.setLayerCompositionType display layer
                (ParcelableComposition.composition c)) ++
  optCall (LayerCommand.dataspace command)
    (fun d => Hal.setLayerDataspace display layer (ParcelableDataspace.dataspace d)) ++
  optCall (LayerCommand.displayFrame command) (Hal.setLayerDisplayFrame display layer) ++
  optCall (LayerCommand.planeAlpha command)
    (fun a => Hal.setLayerPlaneAlpha display layer (PlaneAlpha.alpha a)) ++
  optCall (LayerCommand.sourceCrop command) (Hal.setLayerSourceCrop display layer) ++
  optCall (LayerCommand.transform command)
    (fun t => Hal.setLayerTransform display layer (ParcelableTransform.transform t)) ++
  optCall (LayerCommand.visibleRegion command) (Hal.setLayerVisibleRegion display layer) ++
  optCall (LayerCommand.z command)
    (fun z => Hal.setLayerZOrder display layer (ZOrder.z z)) ++
  optCall (LayerCommand.colorTransform command)
    (Hal.setLayerColorTransform display layer) ++
  optCall (LayerCommand.perFrameMetadata command)
    (Hal.setLayerPerFrameMetadata display layer) ++
  optCall (LayerCommand.perFrameMetadataBlob command)
    (Hal.setLayerPerFrameMetadataBlobs display layer).

(** The layer command carries neither a buffer nor a sideband stream. *)
Definition forwardsOnly (command : LayerCommand.t) : bool :=
  match LayerCommand.buffer command, LayerCommand.sidebandStream command with
  | None, None => true
  | _, _ => false
  end.

(** The display command carries no client target, no output buffer and no
    present-or-validate, and its layer commands carry no buffer and no
    sideband stream: none of its HAL calls is conditional on a status. *)
Definition unconditional (command : DisplayCommand.t) : bool :=
  match DisplayCommand.clientTarget command,
        DisplayCommand.virtualDisplayOutputBuffer command with
  | None, None =>
      negb (DisplayCommand.presentOrValidateDisplay command) &&
      forallb forwardsOnly (DisplayCommand.layers command)
  | _, _ => false
  end.

(** The HAL calls of an unconditional display command, in dispatch order. *)
Definition unconditionalCalls (command : DisplayCommand.t) : list Hal.Call :=
  let display := DisplayCommand.display command in
  concat (map (forwardedCalls display) (DisplayCommand.layers command)) ++
  optCall (DisplayCommand.colorTransformMatrix command) (Hal.setColorTransform display) ++
  optCall (DisplayCommand.brightness command)
    (fun b => Hal.setDisplayBrightness display (DisplayBrightness.brightness b)) ++
  (if DisplayCommand.validateDisplay command
   then [Hal.setExpectedPresentTime display (DisplayCommand.expectedPresentTime command);
         Hal.validateDisplay display]
   else []) ++
  (if DisplayCommand.acceptDisplayChanges command
   then [Hal.acceptDisplayChanges display] else []) ++
  (if DisplayCommand.presentDisplay command then [Hal.presentDisplay display] else []).

(** The error codes carried by the error entries of a result list. *)
Fixpoint errorCodes (l : list CommandResultPayload) : list int32_t :=
  match l with
  | [] => []
  | CommandError _ code :: l' => code :: errorCodes l'
  | _ :: l' => errorCodes l'
  end.

Definition int64_range (z : Z) : Prop := - 2 ^ 63 <= z < 2 ^ 63.

(** The display a HAL call is addressed to, and its layer if it has one. *)
Definition callDisplay (c : Hal.Call) : int64_t :=
  match c with
  | Hal.acceptDisplayChanges d | Hal.getHasClientComposition d | Hal.presentDisplay d
  | Hal.setClientTarget d _ _ _ _ | Hal.setColorTransform d _
  | Hal.setDisplayBrightness d _ | Hal.setExpectedPresentTime d _
  | Hal.setLayerBlendMode d _ _ | Hal.setLayerBuffer d _ _ _ | Hal.setLayerColor d _ _
  | Hal.setLayerColorTransform d _ _ | Hal.setLayerCompositionType d _ _
  | Hal.setLayerCursorPosition d _ _ _ | Hal.setLayerDataspace d _ _
  | Hal.setLayerDisplayFrame d _ _ | Hal.setLayerPerFrameMetadata d _ _
  | Hal.setLayerPerFrameMetadataBlobs d _ _ | Hal.setLayerPlaneAlpha d _ _
  | Hal.setLayerSidebandStream d _ _ | Hal.setLayerSourceCrop d _ _
  | Hal.setLayerSurfaceDamage d _ _ | Hal.setLayerTransform d _ _
  | Hal.setLayerVisibleRegion d _ _ | Hal.setLayerZOrder d _ _
  | Hal.setOutputBuffer d _ _ | Hal.validateDisplay d => d
  end.

Definition callLayer (c : Hal.Call) : option int64_t :=
  match c with
  | Hal.setLayerBlendMode _ l _ | Hal.setLayerBuffer _ l _ _ | Hal.setLayerColor _ l _
  | Hal.setLayerColorTransform _ l _ | Hal.setLayerCompositionType _ l _
  | Hal.setLayerCursorPosition _ l _ _ | Hal.setLayerDataspace _ l _
  | Hal.setLayerDisplayFrame _ l _ | Hal.setLayerPerFrameMetadata _ l _
  | Hal.setLayerPerFrameMetadataBlobs _ l _ | Hal.setLayerPlaneAlpha _ l _
  | Hal.setLayerSidebandStream _ l _ | Hal.setLayerSourceCrop _ l _
  | Hal.setLayerSurfaceDamage _ l _ | Hal.setLayerTransform _ l _
  | Hal.setLayerVisibleRegion _ l _ | Hal.setLayerZOrder _ l _ => Some l
  | _ => None
  end.

(** The call is addressed to the display of the command and, if it is a
    layer call, to the layer of one of the command's layer commands. *)
Definition addressedBy (command : DisplayCommand.t) (c : Hal.Call) : Prop :=
  callDisplay c = DisplayCommand.display command /\
  forall layer, callLayer c = Some layer ->
                In layer (map LayerCommand.layer (DisplayCommand.layers command)).

Section Patterns.
Context {H R : Type} `{IComposerHal H} `{IResourceManager R}.

Local Abbreviation M := (M H R).
Local Abbreviation Engine := (Engine H R).

(** The pattern of every status-only operation: call the HAL and record a
    non-zero status under the current command index. *)
Definition statusOnly (c : Hal.Call) : M unit :=
  '(err, _) <- hal c ;;
  if failed err then setError_at_mCommandIndex err else ret tt.

(** The error entries a run of status-only calls leaves, from the HAL state
    it starts in: one per failing call, in call order. *)
Fixpoint callErrors (index : int32_t) (calls : list Hal.Call) (h : H)
    : list CommandResultPayload :=
  match calls with
  | [] => []
  | c :: calls' =>
      (if failed (halStatus c h) then [CommandError index (halStatus c h)] else []) ++
      callErrors index calls' (halNext c h)
  end.

(** What the engine shares with its collaborators: the HAL, the resource
    manager and the calls made so far. *)
Definition collaborators (e : Engine) : H * R * list Hal.Call :=
  (mHal e, mResources e, halCalls e).

(** The result and the effect on the collaborators do not depend on the
    command index or on what the writer holds. *)
Definition index_blind {A} (m : M A) : Prop :=
  forall e1 e2 : Engine,
    collaborators e1 = collaborators e2 ->
    fst (m e1) = fst (m e2) /\
    collaborators (exec m e1) = collaborators (exec m e2).

(** The computation only appends to the writer, and every error entry it
    appends carries a non-zero code. *)
Definition records_failures_only {A} (m : M A) : Prop :=
  forall e : Engine,
    exists l, mWriter (exec m e) = mWriter e ++ l /\
              Forall (fun code => code <> 0) (errorCodes l).

(** From collaborators in good standing ([okH], [okR]) the computation
    records no error entry and leaves them in good standing. *)
Definition stays_clean (okH : H -> Prop) (okR : R -> Prop) {A} (m : M A) : Prop :=
  forall e : Engine,
    okH (mHal e) -> okR (mResources e) ->
    errorCodes (mWriter (exec m e)) = errorCodes (mWriter e) /\
    okH (mHal (exec m e)) /\ okR (mResources (exec m e)).

(** The computation only appends to the log of HAL calls, and every call it
    appends satisfies [P]. *)
Definition calls_within (P : Hal.Call -> Prop) {A} (m : M A) : Prop :=
  forall e : Engine,
    exists l, halCalls (exec m e) = halCalls e ++ l /\ Forall P l.

(** Two computations that run alike from every engine. *)
Definition same_run {A} (m m' : M A) : Prop := forall e : Engine, m e = m' e.

(** The HAL calls present-or-validate makes after setting the expected
    present time and attempting (or skipping) the first present. *)
Definition fallbackCalls (display : int64_t) (t : option ClockMonotonicTimestamp)
    (e : Engine) : list Hal.Call :=
  if negb (failed (firstPresentErr display t e)) then []
  else if negb (nonFatal (fallbackValidateErr display t e)) then
    [Hal.validateDisplay display]
  else if fallbackValidateErr display t e =? HWC2_ERROR_HAS_CHANGES then
    [Hal.validateDisplay display]
  else if clientCompositionQuery display t e then
    [Hal.validateDisplay display; Hal.getHasClientComposition display]
  else
    [Hal.validateDisplay display; Hal.getHasClientComposition display;
     Hal.acceptDisplayChanges display; Hal.presentDisplay display].
End Patterns.

(** * Properties *)

Section Properties.
Context {H R : Type} `{IComposerHal H} `{IResourceManager R}.

Local Abbreviation M := (M H R).
Local Abbreviation Engine := (Engine H R).

Lemma bind_run {A B} (m : M A) (k : A -> M B) (e : Engine) :
  bind m k e = k (fst (m e)) (snd (m e)).
Proof. unfold bind. now destruct (m e). Qed.

Lemma exec_bind {A B} (m : M A) (k : A -> M B) (e : Engine) :
  exec (bind m k) e = exec (k (fst (m e))) (exec m e).
Proof. unfold exec. now rewrite bind_run. Qed.

Lemma errorIndices_app (l1 l2 : list CommandResultPayload) :
  errorIndices (l1 ++ l2) = errorIndices l1 ++ errorIndices l2.
Proof.
  induction l1 as [|p l1 IH]; simpl; [reflexivity|].
  destruct p; simpl; now rewrite ?IH.
Qed.

(** *** Proof rules for [records_at_index] *)

Lemma records_ret {A} (v : A) : records_at_index (ret v : M A).
Proof.
  intro e; split; [reflexivity|].
  exists []. now rewrite app_nil_r.
Qed.

Lemma records_bind {A B} (m : M A) (k : A -> M B) :
  records_at_index m -> (forall v, records_at_index (k v)) ->
  records_at_index (bind m k).
Proof.
  intros Hm Hk e. rewrite exec_bind.
  destruct (Hm e) as [Hi [l1 [Hw1 Hf1]]].
  destruct (Hk (fst (m e)) (exec m e)) as [Hi2 [l2 [Hw2 Hf2]]].
  split; [congruence|].
  exists (l1 ++ l2). split.
  - rewrite Hw2, Hw1. now rewrite app_assoc.
  - rewrite errorIndices_app. apply Forall_app. split; [exact Hf1|].
    now rewrite Hi in Hf2.
Qed.

Lemma records_hal (c : Hal.Call) :
  records_at_index (hal c : M (int32_t * Hal.Out c)).
Proof.
  intro e. unfold exec, hal. destruct (halCall c (mHal e)) as [reply h]. simpl.
  split; [reflexivity|]. exists []. now rewrite app_nil_r.
Qed.

Lemma records_resources_update (f : R -> R) :
  records_at_index (resources_update f : M unit).
Proof.
  intro e. unfold exec, resources_update. simpl.
  split; [reflexivity|]. exists []. now rewrite app_nil_r.
Qed.

Lemma records_resources_mustValidateDisplay (display : int64_t) :
  records_at_index (resources_mustValidateDisplay display : M bool).
Proof.
  intro e. unfold exec, resources_mustValidateDisplay. simpl.
  split; [reflexivity|]. exists []. now rewrite app_nil_r.
Qed.

Lemma records_resources_resolve (c : Res.Call) :
  records_at_index (resources_resolve c : M (int32_t * buffer_handle_t)).
Proof.
  intro e. unfold exec, resources_resolve.
  destruct (resolve c (mResources e)) as [reply r]. simpl.
  split; [reflexivity|]. exists []. now rewrite app_nil_r.
Qed.

Lemma records_setError (err : int32_t) :
  records_at_index (setError_at_mCommandIndex err : M unit).
Proof.
  intro e. unfold exec, setError_at_mCommandIndex, bind, get_mCommandIndex, writer. simpl.
  split; [reflexivity|].
  exists [CommandError (mCommandIndex e) err]. split; [reflexivity|].
  simpl. now constructor.
Qed.

Lemma records_writer_payload (p : CommandResultPayload) :
  isError p = false -> records_at_index (writer (fun w => w ++ [p]) : M unit).
Proof.
  intros Hp e. unfold exec, writer. simpl.
  split; [reflexivity|]. exists [p]. split; [reflexivity|].
  destruct p; simpl in *; try discriminate; constructor.
Qed.

Lemma records_forEach {A} (xs : list A) (body : A -> M unit) :
  (forall x, records_at_index (body x)) -> records_at_index (forEach xs body).
Proof.
  intro Hb. induction xs as [|x xs IH]; simpl.
  - apply records_ret.
  - apply records_bind; [apply Hb | intros _; exact IH].
Qed.

Create HintDb records.

Ltac records_step :=
  first
    [ solve [auto 2 with records]
    | apply records_setError
    | apply records_ret
    | apply records_hal
    | apply records_resources_update
    | apply records_resources_mustValidateDisplay
    | apply records_resources_resolve
    | apply records_writer_payload; reflexivity
    | apply records_forEach; intros
    | apply records_bind; [| intros ]
    | match goal with
      | |- records_at_index (match ?x with _ => _ end) => destruct x
      end ].

Ltac records := repeat records_step.

Lemma records_executeValidateDisplayInternal (display : int64_t) :
  records_at_index (executeValidateDisplayInternal display : M int32_t).
Proof. unfold executeValidateDisplayInternal. records. Qed.

Lemma records_executePresentDisplay (display : int64_t) :
  records_at_index (executePresentDisplay display : M int32_t).
Proof. unfold executePresentDisplay. records. Qed.

Lemma records_executeAcceptDisplayChanges (display : int64_t) :
  records_at_index (executeAcceptDisplayChanges display : M unit).
Proof. unfold executeAcceptDisplayChanges. records. Qed.

Hint Resolve records_executeValidateDisplayInternal records_executePresentDisplay
  records_executeAcceptDisplayChanges : records.

Lemma records_executePresentOrValidateDisplay (display : int64_t)
    (t : option ClockMonotonicTimestamp) :
  records_at_index (executePresentOrValidateDisplay display t : M unit).
Proof.
  unfold executePresentOrValidateDisplay, executeSetExpectedPresentTimeInternal.
  records.
Qed.

Lemma records_dispatchLayerCommand (display : int64_t) (command : LayerCommand.t) :
  records_at_index (dispatchLayerCommand display command : M unit).
Proof.
  unfold dispatchLayerCommand, DISPATCH_LAYER_COMMAND.
  unfold executeSetLayerCursorPosition, executeSetLayerBuffer,
    executeSetLayerSurfaceDamage, executeSetLayerBlendMode, executeSetLayerColor,
    executeSetLayerComposition, executeSetLayerDataspace, executeSetLayerDisplayFrame,
    executeSetLayerPlaneAlpha, executeSetLayerSidebandStream, executeSetLayerSourceCrop,
    executeSetLayerTransform, executeSetLayerVisibleRegion, executeSetLayerZOrder,
    executeSetLayerColorTransform, executeSetLayerPerFrameMetadata,
    executeSetLayerPerFrameMetadataBlobs.
  records.
Qed.

Hint Resolve records_executePresentOrValidateDisplay records_dispatchLayerCommand : records.

Lemma records_dispatchDisplayCommand (command : DisplayCommand.t) :
  records_at_index (dispatchDisplayCommand command : M unit).
Proof.
  unfold dispatchDisplayCommand, DISPATCH_DISPLAY_COMMAND, DISPATCH_DISPLAY_BOOL_COMMAND,
    DISPATCH_DISPLAY_BOOL_COMMAND_AND_DATA.
  unfold executeSetColorTransform, executeSetClientTarget, executeSetOutputBuffer,
    executeSetDisplayBrightness, executeValidateDisplay,
    executeSetExpectedPresentTimeInternal.
  records.
Qed.

(** *** The batch loop *)

Lemma exec_forEach_cons {A} (x : A) (xs : list A) (body : A -> M unit) (e : Engine) :
  exec (forEach (x :: xs) body) e = exec (forEach xs body) (exec (body x) e).
Proof. simpl. now rewrite exec_bind. Qed.

Lemma withIndex_same (i : int32_t) (e : Engine) :
  mCommandIndex e = i -> withIndex i e = e.
Proof. intros <-. now destruct e. Qed.

Lemma withIndex_withIndex (i j : int32_t) (e : Engine) :
  withIndex i (withIndex j e) = withIndex i e.
Proof. reflexivity. Qed.

Lemma dispatchAt_withIndex (j : int32_t) (e : Engine) (ic : nat * DisplayCommand.t) :
  dispatchAt (withIndex j e) ic = dispatchAt e ic.
Proof. reflexivity. Qed.

Lemma fold_dispatchAt_withIndex (n j : int32_t) (l : list (nat * DisplayCommand.t))
    (e : Engine) :
  withIndex n (fold_left dispatchAt l (withIndex j e)) =
  withIndex n (fold_left dispatchAt l e).
Proof.
  destruct l as [|ic l]; simpl.
  - apply withIndex_withIndex.
  - now rewrite dispatchAt_withIndex.
Qed.

(** A display id that fits [int64_t] survives the [uint64_t] parameter. *)
Lemma to_int64_to_uint64 (display : Z) :
  - 2 ^ 63 <= display < 2 ^ 63 -> to_int64 (to_uint64 display) = display.
Proof.
  unfold to_int64, to_uint64. intro Hd.
  rewrite Zplus_mod_idemp_l. rewrite Z.mod_small; lia.
Qed.

Lemma wrap_int32_small (z : Z) : 0 <= z <= INT32_MAX -> wrap_int32 z = z.
Proof.
  unfold wrap_int32, INT32_MAX. intro Hz.
  rewrite Z.mod_small; lia.
Qed.

(** One turn of the loop of [execute]: dispatch, then [++mCommandIndex]. *)
Lemma exec_execute_body (command : DisplayCommand.t) (e : Engine) :
  exec (dispatchDisplayCommand command ;;
        index <- get_mCommandIndex ;;
        set_mCommandIndex (wrap_int32 (index + 1))) e =
  withIndex (wrap_int32 (mCommandIndex e + 1)) (exec (dispatchDisplayCommand command) e).
Proof.
  rewrite exec_bind.
  destruct (records_dispatchDisplayCommand command e) as [Hi _].
  unfold exec at 1, bind, get_mCommandIndex. simpl.
  unfold withIndex, exec. simpl. now rewrite <- Hi.
Qed.

Lemma forEach_dispatch (commands : list DisplayCommand.t) :
  forall (k : nat) (e : Engine),
    mCommandIndex e = Z.of_nat k ->
    Z.of_nat (k + length commands) <= INT32_MAX ->
    let e' := exec (forEach commands (fun command =>
                      dispatchDisplayCommand command ;;
                      index <- get_mCommandIndex ;;
                      set_mCommandIndex (wrap_int32 (index + 1)))) e in
    e' = withIndex (Z.of_nat (k + length commands))
           (fold_left dispatchAt (combine (seq k (length commands)) commands) e) /\
    exists chunks : list (list CommandResultPayload),
      length chunks = length commands /\
      mWriter e' = mWriter e ++ concat chunks /\
      forall i chunk, nth_error chunks i = Some chunk ->
                      Forall (eq (Z.of_nat (k + i))) (errorIndices chunk).
Proof.
  induction commands as [|c cs IH]; intros k e Hk Hmax e'.
  - subst e'. simpl. split.
    + rewrite Nat.add_0_r. symmetry. now apply withIndex_same.
    + exists []. repeat split; [now rewrite app_nil_r|].
      intros [|i] chunk; discriminate.
  - subst e'. rewrite exec_forEach_cons, exec_execute_body.
    simpl length in *.
    rewrite Hk, wrap_int32_small by lia.
    destruct (records_dispatchDisplayCommand c e) as [_ [l0 [Hw0 Hf0]]].
    set (e1 := withIndex (Z.of_nat k + 1) (exec (dispatchDisplayCommand c) e)).
    assert (Hk1 : mCommandIndex e1 = Z.of_nat (S k)) by (subst e1; simpl; lia).
    destruct (IH (S k) e1 Hk1) as [Hfold [chunks [Hlen [Hw Hch]]]]; [lia|].
    split.
    + rewrite Hfold. subst e1. rewrite fold_dispatchAt_withIndex.
      replace (S k + length cs)%nat with (k + S (length cs))%nat by lia.
      cbn [seq combine fold_left].
      assert (Hd : dispatchAt e (k, c) = exec (dispatchDisplayCommand c) e).
      { unfold dispatchAt. cbn [fst snd]. now rewrite withIndex_same. }
      now rewrite Hd.
    + exists (l0 :: chunks). split; [simpl; congruence|]. split.
      * rewrite Hw. subst e1.
        change (mWriter (withIndex (Z.of_nat k + 1) (exec (dispatchDisplayCommand c) e)))
          with (mWriter (exec (dispatchDisplayCommand c) e)).
        rewrite Hw0. cbn [concat]. now rewrite app_assoc.
      * intros [|i] chunk Hn; simpl in Hn.
        -- injection Hn as <-. rewrite Nat.add_0_r. now rewrite <- Hk.
        -- replace (k + S i)%nat with (S k + i)%nat by lia. now apply Hch.
Qed.

(** *** Ordering of the recorded indices *)

Lemma sorted_constant_prefix (k : Z) (l1 l2 : list Z) :
  Forall (eq k) l1 -> Forall (fun j => k <= j) l2 -> StronglySorted Z.le l2 ->
  StronglySorted Z.le (l1 ++ l2).
Proof.
  intros Hl1 Hl2 Hs. induction Hl1 as [|x l1 Hx Hl1 IH]; simpl; [exact Hs|].
  subst x. constructor; [exact IH|].
  apply Forall_app. split; [|exact Hl2].
  eapply Forall_impl; [|exact Hl1]. simpl; intros j <-. lia.
Qed.

Lemma chunks_sorted (chunks : list (list CommandResultPayload)) :
  forall k : nat,
    (forall i chunk, nth_error chunks i = Some chunk ->
                     Forall (eq (Z.of_nat (k + i))) (errorIndices chunk)) ->
    StronglySorted Z.le (errorIndices (concat chunks)) /\
    Forall (fun j => Z.of_nat k <= j < Z.of_nat (k + length chunks))
      (errorIndices (concat chunks)).
Proof.
  induction chunks as [|c cs IH]; intros k Hch; simpl.
  - split; constructor.
  - rewrite errorIndices_app.
    assert (Hc : Forall (eq (Z.of_nat k)) (errorIndices c)).
    { specialize (Hch 0%nat c eq_refl). now rewrite Nat.add_0_r in Hch. }
    destruct (IH (S k)) as [Hs Hb].
    { intros i chunk Hn. replace (S k + i)%nat with (k + S i)%nat by lia.
      now apply Hch. }
    split.
    + apply sorted_constant_prefix with (k := Z.of_nat k); [exact Hc| |exact Hs].
      eapply Forall_impl; [|exact Hb]. simpl; intros; lia.
    + apply Forall_app. split.
      * eapply Forall_impl; [|exact Hc]. simpl; intros j <-. lia.
      * eapply Forall_impl; [|exact Hb]. simpl; intros; lia.
Qed.

Lemma indexSet_strictly_sorted (l : list Z) :
  StronglySorted Z.le l -> StronglySorted Z.lt (indexSet l).
Proof.
  unfold indexSet. induction 1 as [|x l Hs IH Hall]; simpl; [constructor|].
  destruct (in_dec Z.eq_dec x l) as [Hin|Hnin]; [exact IH|].
  constructor; [exact IH|].
  apply Forall_forall. intros y Hy. apply nodup_In in Hy.
  rewrite Forall_forall in Hall. specialize (Hall y Hy).
  assert (x <> y) by (intros ->; contradiction). lia.
Qed.

Lemma execute_run (commands : list DisplayCommand.t) (e : Engine) :
  let e' := exec (forEach commands (fun command =>
                    dispatchDisplayCommand command ;;
                    index <- get_mCommandIndex ;;
                    set_mCommandIndex (wrap_int32 (index + 1)))) (withIndex 0 e) in
  execute commands e = ((0, mWriter e'), drained e').
Proof.
  intro e'. unfold execute.
  rewrite bind_run. cbv beta. rewrite bind_run. cbv beta.
  reflexivity.
Qed.

Lemma skipn_length_app {A} (l l' : list A) : skipn (length l) (l ++ l') = l'.
Proof. induction l as [|x l IH]; [reflexivity|exact IH]. Qed.

Lemma batchChunks_records (commands : list DisplayCommand.t) :
  forall (k : nat) (e : Engine),
    mWriter (fold_left dispatchAt (combine (seq k (length commands)) commands) e) =
      mWriter e ++ concat (batchChunks k commands e) /\
    length (batchChunks k commands e) = length commands /\
    forall i chunk, nth_error (batchChunks k commands e) i = Some chunk ->
                    Forall (eq (Z.of_nat (k + i))) (errorIndices chunk).
Proof.
  induction commands as [|c cs IH]; intros k e.
  - cbn. rewrite app_nil_r. repeat split. intros [|i] chunk; discriminate.
  - cbn [length seq combine fold_left batchChunks concat].
    destruct (IH (S k) (dispatchAt e (k, c))) as [Hw [Hlen Hch]].
    destruct (records_dispatchDisplayCommand c (withIndex (Z.of_nat k) e))
      as [_ [l0 [Hw0 Hf0]]].
    change (exec (dispatchDisplayCommand c) (withIndex (Z.of_nat k) e))
      with (dispatchAt e (k, c)) in Hw0.
    change (mWriter (withIndex (Z.of_nat k) e)) with (mWriter e) in Hw0.
    change (mCommandIndex (withIndex (Z.of_nat k) e)) with (Z.of_nat k) in Hf0.
    assert (Happ : appended e (dispatchAt e (k, c)) = l0).
    { unfold appended. rewrite Hw0. apply skipn_length_app. }
    rewrite Happ. repeat split.
    + rewrite Hw, Hw0. now rewrite app_assoc.
    + cbn [length]. now rewrite Hlen.
    + intros [|i] chunk Hn; cbn [nth_error] in Hn.
      * injection Hn as <-. now rewrite Nat.add_0_r.
      * replace (k + S i)%nat with (S k + i)%nat by lia. now apply Hch.
Qed.

(** C1: [execute] resets the command index to 0 and dispatches every
    command of the batch in batch order, the i-th one under index i,
    whatever the earlier ones recorded: it returns exactly what the writer
    holds after that indexed run.  What the run adds to the writer is, chunk
    by chunk, what the i-th command recorded under index i; the error
    entries of the i-th chunk all carry index i, so the recorded indices
    never decrease, stay within [0, batch size), and the set of indices
    that appear is strictly increasing. *)
Theorem execute_indexes_commands_in_order
    (commands : list DisplayCommand.t) (e : Engine) :
  Z.of_nat (length commands) <= INT32_MAX ->
  let final := fold_left dispatchAt (combine (seq 0 (length commands)) commands)
                 (withIndex 0 e) in
  let chunks := batchChunks 0 commands (withIndex 0 e) in
  execute commands e =
    ((0, mWriter final), drained (withIndex (Z.of_nat (length commands)) final)) /\
  mWriter final = mWriter e ++ concat chunks /\
  length chunks = length commands /\
  (forall i chunk, nth_error chunks i = Some chunk ->
                   Forall (eq (Z.of_nat i)) (errorIndices chunk)) /\
  StronglySorted Z.le (errorIndices (concat chunks)) /\
  Forall (fun j => 0 <= j < Z.of_nat (length commands))
    (errorIndices (concat chunks)) /\
  StronglySorted Z.lt (indexSet (errorIndices (concat chunks))).
Proof.
  intros Hmax final chunks.
  destruct (forEach_dispatch commands 0%nat (withIndex 0 e) eq_refl Hmax)
    as [Hfold _].
  destruct (batchChunks_records commands 0%nat (withIndex 0 e)) as [Hw [Hlen Hch]].
  fold final in Hw. fold chunks in Hw, Hlen, Hch.
  destruct (chunks_sorted chunks 0%nat Hch) as [Hsorted Hbound].
  repeat split.
  - rewrite execute_run. rewrite Hfold. reflexivity.
  - exact Hw.
  - exact Hlen.
  - exact Hch.
  - exact Hsorted.
  - rewrite <- Hlen. exact Hbound.
  - now apply indexSet_strictly_sorted.
Qed.

(** *** Effect summaries of the protocol operations *)

Lemma halCall_eta (c : Hal.Call) (h : H) :
  halCall c h = ((halStatus c h, halOut c h), halNext c h).
Proof. unfold halStatus, halOut, halNext. now destruct (halCall c h) as [[err out] h']. Qed.

Lemma hal_run (c : Hal.Call) (e : Engine) :
  hal c e = ((halStatus c (mHal e), halOut c (mHal e)), afterHal c e).
Proof.
  unfold afterHal, exec, hal. rewrite (halCall_eta c (mHal e)). reflexivity.
Qed.

Lemma mWriter_afterHal (c : Hal.Call) (e : Engine) : mWriter (afterHal c e) = mWriter e.
Proof. unfold afterHal, exec, hal. now destruct (halCall c (mHal e)). Qed.

Lemma mCommandIndex_afterHal (c : Hal.Call) (e : Engine) :
  mCommandIndex (afterHal c e) = mCommandIndex e.
Proof. unfold afterHal, exec, hal. now destruct (halCall c (mHal e)). Qed.

Lemma mResources_afterHal (c : Hal.Call) (e : Engine) :
  mResources (afterHal c e) = mResources e.
Proof. unfold afterHal, exec, hal. now destruct (halCall c (mHal e)). Qed.

Lemma halCalls_afterHal (c : Hal.Call) (e : Engine) :
  halCalls (afterHal c e) = halCalls e ++ [c].
Proof. unfold afterHal, exec, hal. now destruct (halCall c (mHal e)). Qed.

Lemma executePresentDisplay_run (display : int64_t) (e : Engine) :
  let err := halStatus (Hal.presentDisplay display) (mHal e) in
  let out := halOut (Hal.presentDisplay display) (mHal e) in
  executePresentDisplay display e =
    (err, if failed err then afterHal (Hal.presentDisplay display) e
          else recording (presentRecords display out)
                 (afterHal (Hal.presentDisplay display) e)).
Proof.
  intros err out. subst err out.
  unfold executePresentDisplay, presentRecords, recording, afterHal, exec, halStatus,
    halOut, bind, hal, writer, ret, Writer.setPresentFence, Writer.setReleaseFences.
  destruct (halCall (Hal.presentDisplay display) (mHal e)) as [[err out] h].
  cbn [fst snd]. destruct (failed err); cbn; [reflexivity|].
  destruct (negb (Hal.presentFence out =? -1)); cbn; rewrite <- ?app_assoc; reflexivity.
Qed.

Lemma executeValidateDisplayInternal_run (display : int64_t) (e : Engine) :
  let err := halStatus (Hal.validateDisplay display) (mHal e) in
  let out := halOut (Hal.validateDisplay display) (mHal e) in
  executeValidateDisplayInternal display e =
    (err, recording (if nonFatal err then validateRecords display out
                     else [CommandError (mCommandIndex e) err])
            (exec (resources_update (setDisplayMustValidateState display false))
               (afterHal (Hal.validateDisplay display) e))).
Proof.
  intros err out. subst err out.
  unfold executeValidateDisplayInternal, validateRecords, nonFatal, recording, afterHal,
    exec, halStatus, halOut, setError_at_mCommandIndex, get_mCommandIndex, bind, hal,
    writer, resources_update, ret, Writer.setChangedCompositionTypes,
    Writer.setDisplayRequests, Writer.setError.
  destruct (halCall (Hal.validateDisplay display) (mHal e)) as [[err out] h].
  cbn [fst snd].
  destruct ((err =? HWC2_ERROR_NONE) || (err =? HWC2_ERROR_HAS_CHANGES));
    cbn; rewrite <- ?app_assoc; reflexivity.
Qed.

Lemma executeAcceptDisplayChanges_run (display : int64_t) (e : Engine) :
  let err := halStatus (Hal.acceptDisplayChanges display) (mHal e) in
  executeAcceptDisplayChanges display e =
    (tt, if failed err
         then recording [CommandError (mCommandIndex e) err]
                (afterHal (Hal.acceptDisplayChanges display) e)
         else afterHal (Hal.acceptDisplayChanges display) e).
Proof.
  intros err. subst err.
  unfold executeAcceptDisplayChanges, recording, afterHal, exec, halStatus,
    setError_at_mCommandIndex, get_mCommandIndex, bind, hal, writer, ret,
    Writer.setError.
  destruct (halCall (Hal.acceptDisplayChanges display) (mHal e)) as [[err out] h].
  cbn [fst snd]. destruct (failed err); cbn; reflexivity.
Qed.

Lemma bind_eq {A B} (m : M A) (k : A -> M B) (e e' : Engine) (v : A) :
  m e = (v, e') -> bind m k e = k v e'.
Proof. intro Hm. unfold bind. now rewrite Hm. Qed.

Lemma executeSetExpectedPresentTimeInternal_run (display : int64_t)
    (t : option ClockMonotonicTimestamp) (e : Engine) :
  executeSetExpectedPresentTimeInternal display t e =
  (tt, afterExpectedPresentTime display t e).
Proof.
  unfold executeSetExpectedPresentTimeInternal.
  now rewrite (bind_eq _ _ _ _ _ (hal_run _ e)).
Qed.

Lemma run_eta {A} (m : M A) (e : Engine) : m e = (fst (m e), exec m e).
Proof. unfold exec. now destruct (m e). Qed.

Lemma fst_executePresentDisplay (display : int64_t) (e : Engine) :
  fst (executePresentDisplay display e) = halStatus (Hal.presentDisplay display) (mHal e).
Proof. now rewrite executePresentDisplay_run. Qed.

Lemma fst_executeValidateDisplayInternal (display : int64_t) (e : Engine) :
  fst (executeValidateDisplayInternal display e) =
  halStatus (Hal.validateDisplay display) (mHal e).
Proof. now rewrite executeValidateDisplayInternal_run. Qed.

(** The whole of [executePresentOrValidateDisplay], branch by branch. *)
Lemma executePresentOrValidateDisplay_run (display : int64_t)
    (t : option ClockMonotonicTimestamp) (e : Engine) :
  exec (executePresentOrValidateDisplay display t) e =
    if negb (failed (firstPresentErr display t e)) then
      recording [PresentOrValidateResult display PresentOrValidate.Presented]
        (afterFirstPresent display t e)
    else if negb (nonFatal (fallbackValidateErr display t e)) then
      afterFallbackValidate display t e
    else if fallbackValidateErr display t e =? HWC2_ERROR_HAS_CHANGES then
      recording [PresentOrValidateResult display PresentOrValidate.Validated]
        (afterFallbackValidate display t e)
    else if clientCompositionQuery display t e then
      recording [PresentOrValidateResult display PresentOrValidate.Validated]
        (afterHal (Hal.getHasClientComposition display)
           (afterFallbackValidate display t e))
    else if negb (failed (secondPresentErr display t e)) then
      recording [PresentOrValidateResult display PresentOrValidate.Presented]
        (afterSecondPresent display t e)
    else afterSecondPresent display t e.
Proof.
  unfold exec at 1. unfold executePresentOrValidateDisplay.
  rewrite (bind_eq _ _ _ _ _ (executeSetExpectedPresentTimeInternal_run display t e)).
  rewrite (bind_eq _ _ (afterExpectedPresentTime display t e) 
             (afterExpectedPresentTime display t e)
             (mustValidateDisplay display (mResources e))).
  2:{ unfold resources_mustValidateDisplay, afterExpectedPresentTime.
      now rewrite mResources_afterHal. }
  assert (Hfirst :
    (if mustValidateDisplay display (mResources e) then ret EX_NOT_VALIDATED
     else executePresentDisplay display) (afterExpectedPresentTime display t e) =
    (firstPresentErr display t e, afterFirstPresent display t e)).
  { unfold firstPresentErr, afterFirstPresent.
    destruct (mustValidateDisplay display (mResources e)); [reflexivity|].
    rewrite run_eta at 1. now rewrite fst_executePresentDisplay. }
  rewrite (bind_eq _ _ _ _ _ Hfirst).
  destruct (negb (failed (firstPresentErr display t e))); [reflexivity|].
  assert (Hval :
    executeValidateDisplayInternal display (afterFirstPresent display t e) =
    (fallbackValidateErr display t e, afterFallbackValidate display t e)).
  { rewrite run_eta at 1. now rewrite fst_executeValidateDisplayInternal. }
  rewrite (bind_eq _ _ _ _ _ Hval).
  unfold nonFatal. rewrite negb_orb.
  destruct (negb (fallbackValidateErr display t e =? HWC2_ERROR_NONE) &&
            negb (fallbackValidateErr display t e =? HWC2_ERROR_HAS_CHANGES));
    [reflexivity|].
  destruct (fallbackValidateErr display t e =? HWC2_ERROR_HAS_CHANGES).
  { reflexivity. }
  assert (Hquery :
    (v <- hal (Hal.getHasClientComposition display) ;;
     (let (err, hasClientComp) := v in
      ret ((err =? HWC2_ERROR_NONE) && (hasClientComp : bool))))
      (afterFallbackValidate display t e) =
    (clientCompositionQuery display t e,
     afterHal (Hal.getHasClientComposition display) (afterFallbackValidate display t e))).
  { now rewrite (bind_eq _ _ _ _ _ (hal_run _ _)). }
  rewrite (bind_eq _ _ _ _ _ Hquery).
  destruct (clientCompositionQuery display t e); [reflexivity|].
  rewrite (bind_eq _ _ _ (afterAccept display t e) tt).
  2:{ rewrite run_eta at 1. unfold afterAccept.
      now destruct (fst (executeAcceptDisplayChanges display _)). }
  rewrite (bind_eq _ _ _ (afterSecondPresent display t e) (secondPresentErr display t e)).
  2:{ rewrite run_eta at 1. now rewrite fst_executePresentDisplay. }
  destruct (negb (failed (secondPresentErr display t e))); reflexivity.
Qed.

(** *** What each way-point adds to the writer and to the HAL log *)

Lemma mWriter_executePresentDisplay (display : int64_t) (e : Engine) :
  mWriter (exec (executePresentDisplay display) e) =
  mWriter e ++
  (if failed (halStatus (Hal.presentDisplay display) (mHal e)) then []
   else presentRecords display (halOut (Hal.presentDisplay display) (mHal e))).
Proof.
  unfold exec. rewrite executePresentDisplay_run. cbn [snd].
  destruct (failed (halStatus (Hal.presentDisplay display) (mHal e))).
  - now rewrite mWriter_afterHal, app_nil_r.
  - unfold recording, exec, writer. cbn [snd mWriter]. now rewrite mWriter_afterHal.
Qed.

Lemma halCalls_executePresentDisplay (display : int64_t) (e : Engine) :
  halCalls (exec (executePresentDisplay display) e) =
  halCalls e ++ [Hal.presentDisplay display].
Proof.
  unfold exec. rewrite executePresentDisplay_run. cbn [snd].
  destruct (failed (halStatus (Hal.presentDisplay display) (mHal e)));
    unfold recording, exec, writer; cbn [snd halCalls]; apply halCalls_afterHal.
Qed.

Lemma mWriter_executeValidateDisplayInternal (display : int64_t) (e : Engine) :
  mWriter (exec (executeValidateDisplayInternal display) e) =
  mWriter e ++
  (if nonFatal (halStatus (Hal.validateDisplay display) (mHal e))
   then validateRecords display (halOut (Hal.validateDisplay display) (mHal e))
   else [CommandError (mCommandIndex e)
           (halStatus (Hal.validateDisplay display) (mHal e))]).
Proof.
  unfold exec. rewrite executeValidateDisplayInternal_run.
  unfold recording, exec, writer, resources_update. cbn [snd mWriter].
  now rewrite mWriter_afterHal.
Qed.

Lemma halCalls_executeValidateDisplayInternal (display : int64_t) (e : Engine) :
  halCalls (exec (executeValidateDisplayInternal display) e) =
  halCalls e ++ [Hal.validateDisplay display].
Proof.
  unfold exec. rewrite executeValidateDisplayInternal_run.
  unfold recording, exec, writer, resources_update. cbn [snd halCalls].
  apply halCalls_afterHal.
Qed.

Lemma mResources_executeValidateDisplayInternal (display : int64_t) (e : Engine) :
  mResources (exec (executeValidateDisplayInternal display) e) =
  setDisplayMustValidateState display false (mResources e).
Proof.
  unfold exec. rewrite executeValidateDisplayInternal_run.
  unfold recording, exec, writer, resources_update. cbn [snd mResources].
  now rewrite mResources_afterHal.
Qed.

Lemma mWriter_executeAcceptDisplayChanges (display : int64_t) (e : Engine) :
  mWriter (exec (executeAcceptDisplayChanges display) e) =
  mWriter e ++
  (if failed (halStatus (Hal.acceptDisplayChanges display) (mHal e))
   then [CommandError (mCommandIndex e)
           (halStatus (Hal.acceptDisplayChanges display) (mHal e))]
   else []).
Proof.
  unfold exec. rewrite executeAcceptDisplayChanges_run. cbn [snd].
  destruct (failed (halStatus (Hal.acceptDisplayChanges display) (mHal e))).
  - unfold recording, exec, writer. cbn [snd mWriter]. now rewrite mWriter_afterHal.
  - now rewrite mWriter_afterHal, app_nil_r.
Qed.

Lemma halCalls_executeAcceptDisplayChanges (display : int64_t) (e : Engine) :
  halCalls (exec (executeAcceptDisplayChanges display) e) =
  halCalls e ++ [Hal.acceptDisplayChanges display].
Proof.
  unfold exec. rewrite executeAcceptDisplayChanges_run. cbn [snd].
  destruct (failed (halStatus (Hal.acceptDisplayChanges display) (mHal e)));
    unfold recording, exec, writer; cbn [snd halCalls]; apply halCalls_afterHal.
Qed.

Lemma halCalls_afterFirstPresent (display : int64_t) (t : option ClockMonotonicTimestamp)
    (e : Engine) :
  halCalls (afterFirstPresent display t e) =
  halCalls e ++ Hal.setExpectedPresentTime display t ::
    (if mustValidateDisplay display (mResources e) then []
     else [Hal.presentDisplay display]).
Proof.
  unfold afterFirstPresent, afterExpectedPresentTime.
  destruct (mustValidateDisplay display (mResources e)).
  - apply halCalls_afterHal.
  - rewrite halCalls_executePresentDisplay, halCalls_afterHal.
    now rewrite <- app_assoc.
Qed.

Lemma mWriter_afterFirstPresent_failed (display : int64_t)
    (t : option ClockMonotonicTimestamp) (e : Engine) :
  failed (firstPresentErr display t e) = true ->
  mWriter (afterFirstPresent display t e) = mWriter e.
Proof.
  unfold firstPresentErr, afterFirstPresent, afterExpectedPresentTime.
  destruct (mustValidateDisplay display (mResources e)); intro Hf.
  - apply mWriter_afterHal.
  - rewrite mWriter_executePresentDisplay, Hf, app_nil_r. apply mWriter_afterHal.
Qed.

Lemma mCommandIndex_exec {A} (m : M A) (e : Engine) :
  records_at_index m -> mCommandIndex (exec m e) = mCommandIndex e.
Proof. intro Hm. apply Hm. Qed.

Lemma mCommandIndex_afterFirstPresent (display : int64_t)
    (t : option ClockMonotonicTimestamp) (e : Engine) :
  mCommandIndex (afterFirstPresent display t e) = mCommandIndex e.
Proof.
  unfold afterFirstPresent, afterExpectedPresentTime.
  destruct (mustValidateDisplay display (mResources e)).
  - apply mCommandIndex_afterHal.
  - rewrite mCommandIndex_exec by apply records_executePresentDisplay.
    apply mCommandIndex_afterHal.
Qed.

Lemma countCalls_app (kind : Hal.Call -> bool) (l1 l2 : list Hal.Call) :
  countCalls kind (l1 ++ l2) = (countCalls kind l1 + countCalls kind l2)%nat.
Proof. unfold countCalls. now rewrite filter_app, length_app. Qed.

Lemma protocolOutcomes_appended (e e' : Engine) (l : list CommandResultPayload) :
  mWriter e' = mWriter e ++ l ->
  protocolOutcomes e' = protocolOutcomes e ++ filter isProtocolOutcome l.
Proof. unfold protocolOutcomes. intros ->. apply filter_app. Qed.

Lemma presentRecords_no_outcome (display : int64_t) (out : Hal.PresentOut) :
  filter isProtocolOutcome (presentRecords display out) = [].
Proof.
  unfold presentRecords. now destruct (negb (Hal.presentFence out =? -1)).
Qed.

Lemma mWriter_recording (l : list CommandResultPayload) (e : Engine) :
  mWriter (recording l e) = mWriter e ++ l.
Proof. reflexivity. Qed.

Lemma halCalls_recording (l : list CommandResultPayload) (e : Engine) :
  halCalls (recording l e) = halCalls e.
Proof. reflexivity. Qed.

(** C2: on a display whose must-validate flag is false and whose present
    succeeds, present-or-validate publishes [Presented] (after the fences
    of that present) and calls the HAL for the expected present time and
    the present only: no validate and no accept-changes. *)
Theorem presentOrValidate_presents_directly
    (display : int64_t) (t : option ClockMonotonicTimestamp) (e : Engine) :
  mustValidateDisplay display (mResources e) = false ->
  halStatus (Hal.presentDisplay display) (mHal (afterExpectedPresentTime display t e)) =
    HWC2_ERROR_NONE ->
  let e' := exec (executePresentOrValidateDisplay display t) e in
  let out := halOut (Hal.presentDisplay display)
               (mHal (afterExpectedPresentTime display t e)) in
  mWriter e' =
    mWriter e ++ presentRecords display out ++
    [PresentOrValidateResult display PresentOrValidate.Presented] /\
  protocolOutcomes e' =
    protocolOutcomes e ++ [PresentOrValidateResult display PresentOrValidate.Presented] /\
  halCalls e' =
    halCalls e ++ [Hal.setExpectedPresentTime display t; Hal.presentDisplay display] /\
  countCalls Hal.isValidate (halCalls e') = countCalls Hal.isValidate (halCalls e) /\
  countCalls Hal.isAccept (halCalls e') = countCalls Hal.isAccept (halCalls e).
Proof.
  intros Hmv Hok e' out.
  assert (He' : e' = recording [PresentOrValidateResult display PresentOrValidate.Presented]
                       (afterFirstPresent display t e)).
  { subst e'. rewrite executePresentOrValidateDisplay_run.
    unfold firstPresentErr. now rewrite Hmv, Hok. }
  assert (Hw : mWriter e' =
               mWriter e ++ presentRecords display out ++
               [PresentOrValidateResult display PresentOrValidate.Presented]).
  { rewrite He', mWriter_recording. unfold afterFirstPresent. rewrite Hmv.
    rewrite mWriter_executePresentDisplay, Hok. cbn [failed HWC2_ERROR_NONE Z.eqb negb].
    unfold afterExpectedPresentTime at 1. rewrite mWriter_afterHal.
    now rewrite <- app_assoc. }
  assert (Hc : halCalls e' =
               halCalls e ++
               [Hal.setExpectedPresentTime display t; Hal.presentDisplay display]).
  { rewrite He', halCalls_recording, halCalls_afterFirstPresent. now rewrite Hmv. }
  repeat split.
  - exact Hw.
  - rewrite (protocolOutcomes_appended _ _ _ Hw), filter_app, presentRecords_no_outcome.
    reflexivity.
  - exact Hc.
  - rewrite Hc, countCalls_app. cbn. lia.
  - rewrite Hc, countCalls_app. cbn. lia.
Qed.

(** *** Protocol outcomes along the way-points *)

Lemma protocolOutcomes_afterHal (c : Hal.Call) (e : Engine) :
  protocolOutcomes (afterHal c e) = protocolOutcomes e.
Proof. unfold protocolOutcomes. now rewrite mWriter_afterHal. Qed.

Lemma protocolOutcomes_recording (l : list CommandResultPayload) (e : Engine) :
  protocolOutcomes (recording l e) = protocolOutcomes e ++ filter isProtocolOutcome l.
Proof. unfold protocolOutcomes. rewrite mWriter_recording. apply filter_app. Qed.

Lemma protocolOutcomes_executePresentDisplay (display : int64_t) (e : Engine) :
  protocolOutcomes (exec (executePresentDisplay display) e) = protocolOutcomes e.
Proof.
  rewrite (protocolOutcomes_appended _ _ _ (mWriter_executePresentDisplay display e)).
  destruct (failed (halStatus (Hal.presentDisplay display) (mHal e)));
    [|rewrite presentRecords_no_outcome]; apply app_nil_r.
Qed.

Lemma protocolOutcomes_executeValidateDisplayInternal (display : int64_t) (e : Engine) :
  protocolOutcomes (exec (executeValidateDisplayInternal display) e) = protocolOutcomes e.
Proof.
  rewrite (protocolOutcomes_appended _ _ _
             (mWriter_executeValidateDisplayInternal display e)).
  destruct (nonFatal (halStatus (Hal.validateDisplay display) (mHal e)));
    apply app_nil_r.
Qed.

Lemma protocolOutcomes_executeAcceptDisplayChanges (display : int64_t) (e : Engine) :
  protocolOutcomes (exec (executeAcceptDisplayChanges display) e) = protocolOutcomes e.
Proof.
  rewrite (protocolOutcomes_appended _ _ _
             (mWriter_executeAcceptDisplayChanges display e)).
  destruct (failed (halStatus (Hal.acceptDisplayChanges display) (mHal e)));
    apply app_nil_r.
Qed.

Lemma protocolOutcomes_afterFirstPresent (display : int64_t)
    (t : option ClockMonotonicTimestamp) (e : Engine) :
  protocolOutcomes (afterFirstPresent display t e) = protocolOutcomes e.
Proof.
  unfold afterFirstPresent, afterExpectedPresentTime.
  destruct (mustValidateDisplay display (mResources e));
    rewrite ?protocolOutcomes_executePresentDisplay; apply protocolOutcomes_afterHal.
Qed.

Lemma protocolOutcomes_afterFallbackValidate (display : int64_t)
    (t : option ClockMonotonicTimestamp) (e : Engine) :
  protocolOutcomes (afterFallbackValidate display t e) = protocolOutcomes e.
Proof.
  unfold afterFallbackValidate.
  rewrite protocolOutcomes_executeValidateDisplayInternal.
  apply protocolOutcomes_afterFirstPresent.
Qed.

Lemma protocolOutcomes_afterSecondPresent (display : int64_t)
    (t : option ClockMonotonicTimestamp) (e : Engine) :
  protocolOutcomes (afterSecondPresent display t e) = protocolOutcomes e.
Proof.
  unfold afterSecondPresent, afterAccept.
  rewrite protocolOutcomes_executePresentDisplay,
    protocolOutcomes_executeAcceptDisplayChanges, protocolOutcomes_afterHal.
  apply protocolOutcomes_afterFallbackValidate.
Qed.

Lemma halCalls_afterFallbackValidate (display : int64_t)
    (t : option ClockMonotonicTimestamp) (e : Engine) :
  halCalls (afterFallbackValidate display t e) =
  halCalls (afterFirstPresent display t e) ++ [Hal.validateDisplay display].
Proof. apply halCalls_executeValidateDisplayInternal. Qed.

Lemma halCalls_afterSecondPresent (display : int64_t)
    (t : option ClockMonotonicTimestamp) (e : Engine) :
  halCalls (afterSecondPresent display t e) =
  halCalls (afterFirstPresent display t e) ++
  [Hal.validateDisplay display; Hal.getHasClientComposition display;
   Hal.acceptDisplayChanges display; Hal.presentDisplay display].
Proof.
  unfold afterSecondPresent, afterAccept.
  rewrite halCalls_executePresentDisplay, halCalls_executeAcceptDisplayChanges,
    halCalls_afterHal, halCalls_afterFallbackValidate.
  now rewrite <- !app_assoc.
Qed.

(** C3: on a display whose must-validate flag is true, when validate
    answers "no changes" and the client-composition query does not hold,
    the engine calls accept-changes once and then present once, and
    publishes [Presented] if that present succeeds; when validate answers
    "has changes", or answers "no changes" and the query holds, it
    publishes [Validated] and calls neither accept-changes nor present. *)
Theorem presentOrValidate_validate_fallback
    (display : int64_t) (t : option ClockMonotonicTimestamp) (e : Engine) :
  mustValidateDisplay display (mResources e) = true ->
  let e' := exec (executePresentOrValidateDisplay display t) e in
  (fallbackValidateErr display t e = HWC2_ERROR_NONE ->
   clientCompositionQuery display t e = false ->
   halCalls e' =
     halCalls e ++
     [Hal.setExpectedPresentTime display t; Hal.validateDisplay display;
      Hal.getHasClientComposition display; Hal.acceptDisplayChanges display;
      Hal.presentDisplay display] /\
   countCalls Hal.isAccept (halCalls e') = S (countCalls Hal.isAccept (halCalls e)) /\
   countCalls Hal.isPresent (halCalls e') = S (countCalls Hal.isPresent (halCalls e)) /\
   (secondPresentErr display t e = HWC2_ERROR_NONE ->
    protocolOutcomes e' =
      protocolOutcomes e ++
      [PresentOrValidateResult display PresentOrValidate.Presented])) /\
  (fallbackValidateErr display t e = HWC2_ERROR_HAS_CHANGES \/
   (fallbackValidateErr display t e = HWC2_ERROR_NONE /\
    clientCompositionQuery display t e = true) ->
   protocolOutcomes e' =
     protocolOutcomes e ++ [PresentOrValidateResult display PresentOrValidate.Validated] /\
   countCalls Hal.isAccept (halCalls e') = countCalls Hal.isAccept (halCalls e) /\
   countCalls Hal.isPresent (halCalls e') = countCalls Hal.isPresent (halCalls e)).
Proof.
  intros Hmv e'.
  assert (Hfirst : firstPresentErr display t e = EX_NOT_VALIDATED).
  { unfold firstPresentErr. now rewrite Hmv. }
  assert (Hcalls1 : halCalls (afterFirstPresent display t e) =
                    halCalls e ++ [Hal.setExpectedPresentTime display t]).
  { rewrite halCalls_afterFirstPresent. now rewrite Hmv. }
  pose proof (executePresentOrValidateDisplay_run display t e) as Hrun.
  fold e' in Hrun. rewrite Hfirst in Hrun.
  change (negb (failed EX_NOT_VALIDATED)) with false in Hrun. cbv iota in Hrun.
  split.
  - intros Hv Hq. rewrite Hv, Hq in Hrun.
    change (negb (nonFatal HWC2_ERROR_NONE)) with false in Hrun.
    change (HWC2_ERROR_NONE =? HWC2_ERROR_HAS_CHANGES) with false in Hrun.
    cbv iota in Hrun.
    assert (Hc : halCalls e' =
                 halCalls e ++
                 [Hal.setExpectedPresentTime display t; Hal.validateDisplay display;
                  Hal.getHasClientComposition display; Hal.acceptDisplayChanges display;
                  Hal.presentDisplay display]).
    { rewrite Hrun.
      destruct (negb (failed (secondPresentErr display t e)));
        rewrite ?halCalls_recording, halCalls_afterSecondPresent, Hcalls1;
        now rewrite <- app_assoc. }
    repeat split.
    + exact Hc.
    + rewrite Hc, countCalls_app. cbn. lia.
    + rewrite Hc, countCalls_app. cbn. lia.
    + intro Hp. rewrite Hrun, Hp.
      change (negb (failed HWC2_ERROR_NONE)) with true. cbv iota.
      now rewrite protocolOutcomes_recording, protocolOutcomes_afterSecondPresent.
  - intros [Hv | [Hv Hq]].
    + rewrite Hv in Hrun.
      change (negb (nonFatal HWC2_ERROR_HAS_CHANGES)) with false in Hrun.
      change (HWC2_ERROR_HAS_CHANGES =? HWC2_ERROR_HAS_CHANGES) with true in Hrun.
      cbv iota in Hrun. rewrite Hrun.
      rewrite protocolOutcomes_recording, protocolOutcomes_afterFallbackValidate,
        halCalls_recording, halCalls_afterFallbackValidate, Hcalls1, !countCalls_app.
      repeat split; cbn; lia.
    + rewrite Hv, Hq in Hrun.
      change (negb (nonFatal HWC2_ERROR_NONE)) with false in Hrun.
      change (HWC2_ERROR_NONE =? HWC2_ERROR_HAS_CHANGES) with false in Hrun.
      cbv iota in Hrun. rewrite Hrun.
      rewrite protocolOutcomes_recording, protocolOutcomes_afterHal,
        protocolOutcomes_afterFallbackValidate,
        halCalls_recording, halCalls_afterHal, halCalls_afterFallbackValidate, Hcalls1,
        !countCalls_app.
      repeat split; cbn; lia.
Qed.

Lemma mCommandIndex_afterFallbackValidate (display : int64_t)
    (t : option ClockMonotonicTimestamp) (e : Engine) :
  mCommandIndex (afterFallbackValidate display t e) = mCommandIndex e.
Proof.
  unfold afterFallbackValidate.
  rewrite mCommandIndex_exec by apply records_executeValidateDisplayInternal.
  apply mCommandIndex_afterFirstPresent.
Qed.

(** C6: in present-or-validate, when the first present is not made or
    fails and then either the fallback validate answers with a hard error,
    or it answers "no changes", the client-composition query does not hold
    and the second present fails, neither [Presented] nor [Validated] is
    published and nothing is invented in their place: on the hard error the
    command adds to the writer the one error entry of the validate and
    nothing else; on the double present failure it adds what the validate
    published, then the error of accept-changes if that failed, and nothing
    else. *)
Theorem presentOrValidate_publishes_no_outcome
    (display : int64_t) (t : option ClockMonotonicTimestamp) (e : Engine) :
  failed (firstPresentErr display t e) = true ->
  nonFatal (fallbackValidateErr display t e) = false \/
  (fallbackValidateErr display t e = HWC2_ERROR_NONE /\
   clientCompositionQuery display t e = false /\
   failed (secondPresentErr display t e) = true) ->
  let e' := exec (executePresentOrValidateDisplay display t) e in
  protocolOutcomes e' = protocolOutcomes e /\
  (nonFatal (fallbackValidateErr display t e) = false ->
   mWriter e' =
     mWriter e ++ [CommandError (mCommandIndex e) (fallbackValidateErr display t e)]) /\
  (fallbackValidateErr display t e = HWC2_ERROR_NONE ->
   clientCompositionQuery display t e = false ->
   failed (secondPresentErr display t e) = true ->
   mWriter e' =
     mWriter e ++ validateRecords display (fallbackValidateOut display t e) ++
     (if failed (acceptErr display t e)
      then [CommandError (mCommandIndex e) (acceptErr display t e)] else [])).
Proof.
  intros Hfirst Hcase e'.
  pose proof (executePresentOrValidateDisplay_run display t e) as Hrun.
  fold e' in Hrun. rewrite Hfirst in Hrun. cbn [negb] in Hrun.
  split; [|split].
  - destruct Hcase as [Hv | [Hv [Hq Hp]]].
    + rewrite Hv in Hrun. cbn [negb] in Hrun. rewrite Hrun.
      apply protocolOutcomes_afterFallbackValidate.
    + rewrite Hv, Hq, Hp in Hrun.
      change (negb (nonFatal HWC2_ERROR_NONE)) with false in Hrun.
      change (HWC2_ERROR_NONE =? HWC2_ERROR_HAS_CHANGES) with false in Hrun.
      cbn [negb] in Hrun. rewrite Hrun.
      apply protocolOutcomes_afterSecondPresent.
  - intro Hv. rewrite Hv in Hrun. cbn [negb] in Hrun. rewrite Hrun.
    unfold afterFallbackValidate. rewrite mWriter_executeValidateDisplayInternal.
    fold (fallbackValidateErr display t e). rewrite Hv.
    now rewrite mWriter_afterFirstPresent_failed, mCommandIndex_afterFirstPresent.
  - intros Hv Hq Hp. rewrite Hv, Hq, Hp in Hrun.
    change (negb (nonFatal HWC2_ERROR_NONE)) with false in Hrun.
    change (HWC2_ERROR_NONE =? HWC2_ERROR_HAS_CHANGES) with false in Hrun.
    cbn [negb] in Hrun. rewrite Hrun.
    unfold afterSecondPresent. rewrite mWriter_executePresentDisplay.
    fold (secondPresentErr display t e). rewrite Hp, app_nil_r.
    unfold afterAccept. rewrite mWriter_executeAcceptDisplayChanges.
    fold (acceptErr display t e).
    rewrite mCommandIndex_afterHal, mCommandIndex_afterFallbackValidate, mWriter_afterHal.
    unfold afterFallbackValidate at 1. rewrite mWriter_executeValidateDisplayInternal.
    fold (fallbackValidateErr display t e) (fallbackValidateOut display t e).
    rewrite Hv. change (nonFatal HWC2_ERROR_NONE) with true. cbv iota.
    rewrite mWriter_afterFirstPresent_failed by exact Hfirst.
    now rewrite <- app_assoc.
Qed.

(** *** Validate *)

Lemma nonFatal_iff (err : int32_t) :
  nonFatal err = true <-> err = HWC2_ERROR_NONE \/ err = HWC2_ERROR_HAS_CHANGES.
Proof.
  unfold nonFatal. rewrite orb_true_iff, !Z.eqb_eq. reflexivity.
Qed.

(** C4 (as the code has it): of the validate statuses exactly "no changes
    needed" and "has changes" are non-fatal; on those the
    changed-composition types and the display requests are published, on
    any other status one error entry is recorded under the current
    command index and nothing else; the must-validate flag of the display
    is cleared whatever the status. *)
Theorem validate_reports_and_clears_flag (display : int64_t) (e : Engine) :
  let err := halStatus (Hal.validateDisplay display) (mHal e) in
  let out := halOut (Hal.validateDisplay display) (mHal e) in
  let e' := exec (executeValidateDisplayInternal display) e in
  fst (executeValidateDisplayInternal display e) = err /\
  (nonFatal err = true <-> err = HWC2_ERROR_NONE \/ err = HWC2_ERROR_HAS_CHANGES) /\
  mWriter e' =
    mWriter e ++ (if nonFatal err then validateRecords display out
                  else [CommandError (mCommandIndex e) err]) /\
  mustValidateDisplay display (mResources e') = false /\
  halCalls e' = halCalls e ++ [Hal.validateDisplay display].
Proof.
  intros err out e'. repeat split.
  - apply fst_executeValidateDisplayInternal.
  - apply nonFatal_iff.
  - apply nonFatal_iff.
  - apply mWriter_executeValidateDisplayInternal.
  - subst e'. rewrite mResources_executeValidateDisplayInternal.
    apply mustValidate_cleared.
  - apply halCalls_executeValidateDisplayInternal.
Qed.

(** *** Buffer and sideband-stream resolution *)

(** The layer-buffer path: a failed resolution is recorded and the HAL is
    not called. *)
Lemma executeSetLayerBuffer_resolution_failure
    (display layer : int64_t) (buffer : Buffer.t) (e : Engine) :
  let useCache := match Buffer.handle buffer with None => true | Some _ => false end in
  let handle := match Buffer.handle buffer with None => None | Some h => makeFromAidl h end in
  let err := fst (fst (resolve (Res.getLayerBuffer display layer (Buffer.slot buffer)
                                  useCache handle)
                         (createReleaser true (mResources e)))) in
  failed err = true ->
  let e' := exec (executeSetLayerBuffer display layer buffer) e in
  halCalls e' = halCalls e /\
  mWriter e' = mWriter e ++ [CommandError (mCommandIndex e) err].
Proof.
  intros useCache handle err. subst err useCache handle.
  unfold executeSetLayerBuffer, exec, bind, resources_update, resources_resolve,
    setError_at_mCommandIndex, get_mCommandIndex, writer, Writer.setError.
  cbn [fst snd mResources].
  destruct (resolve _ (createReleaser true (mResources e))) as [[err hwcBuffer] r].
  cbn [fst snd]. intros ->. cbn. split; reflexivity.
Qed.

(** X6: the sideband-stream path as the code has it: the HAL is called
    exactly when the resolution status is non-zero, and an error is recorded
    exactly when that call then fails as well. *)
Lemma executeSetLayerSidebandStream_effect
    (display layer : int64_t) (sidebandStream : AidlNativeHandle) (e : Engine) :
  let reply := fst (resolve (Res.getLayerSidebandStream display layer
                               (makeFromAidl sidebandStream))
                      (createReleaser false (mResources e))) in
  let call := Hal.setLayerSidebandStream display layer (snd reply) in
  let e' := exec (executeSetLayerSidebandStream display layer sidebandStream) e in
  halCalls e' = halCalls e ++ (if failed (fst reply) then [call] else []) /\
  mWriter e' =
    mWriter e ++
    (if failed (fst reply) && failed (halStatus call (mHal e))
     then [CommandError (mCommandIndex e) (halStatus call (mHal e))] else []).
Proof.
  intros reply call. subst call reply.
  unfold executeSetLayerSidebandStream, exec, bind, resources_update, resources_resolve,
    setError_at_mCommandIndex, get_mCommandIndex, writer, Writer.setError, hal,
    halStatus, ret.
  cbn [fst snd mResources].
  destruct (resolve _ (createReleaser false (mResources e))) as [[err stream] r].
  cbn [fst snd]. destruct (failed err) eqn:Ef; cbn [fst snd mHal andb].
  - destruct (halCall (Hal.setLayerSidebandStream display layer stream) (mHal e))
      as [[herr u] h].
    cbn [fst snd]. destruct (failed herr); cbn; rewrite ?app_nil_r; split; reflexivity.
  - rewrite Ef. cbn. rewrite !app_nil_r. split; reflexivity.
Qed.

(** *** Dispatch *)

Lemma exec_forEach {A} (xs : list A) (body : A -> M unit) :
  forall e : Engine,
    exec (forEach xs body) e = fold_left (fun e x => exec (body x) e) xs e.
Proof.
  induction xs as [|x xs IH]; intro e; [reflexivity|].
  rewrite exec_forEach_cons. cbn [fold_left]. apply IH.
Qed.

Lemma exec_DISPATCH_DISPLAY_COMMAND {A} (field : option A) (funcName : A -> M unit)
    (e : Engine) :
  exec (DISPATCH_DISPLAY_COMMAND field funcName) e =
  match field with
  | Some v => exec (funcName v) e
  | None => e
  end.
Proof. now destruct field. Qed.

Lemma exec_DISPATCH_DISPLAY_BOOL_COMMAND {A} (field : bool) (funcName : M A) (e : Engine) :
  exec (DISPATCH_DISPLAY_BOOL_COMMAND field funcName) e =
  if field then exec funcName e else e.
Proof.
  destruct field; [|reflexivity].
  unfold DISPATCH_DISPLAY_BOOL_COMMAND. now rewrite exec_bind.
Qed.

Lemma exec_DISPATCH_DISPLAY_BOOL_COMMAND_AND_DATA {A D} (field : bool) (data : D)
    (funcName : D -> M A) (e : Engine) :
  exec (DISPATCH_DISPLAY_BOOL_COMMAND_AND_DATA field data funcName) e =
  if field then exec (funcName data) e else e.
Proof.
  destruct field; [|reflexivity].
  unfold DISPATCH_DISPLAY_BOOL_COMMAND_AND_DATA. now rewrite exec_bind.
Qed.

Lemma exec_dispatchDisplayCommand (command : DisplayCommand.t) (e : Engine) :
  exec (dispatchDisplayCommand command) e = specDispatchDisplayCommand command e.
Proof.
  unfold dispatchDisplayCommand.
  repeat (rewrite exec_bind; cbv beta).
  rewrite exec_forEach.
  rewrite !exec_DISPATCH_DISPLAY_COMMAND, !exec_DISPATCH_DISPLAY_BOOL_COMMAND,
    !exec_DISPATCH_DISPLAY_BOOL_COMMAND_AND_DATA.
  reflexivity.
Qed.

(** C7: dispatching a display command is dispatching all its layer
    commands in list order and then applying the display-level fields in
    the order color transform, client target, output buffer, brightness,
    validate, accept-changes, present, present-or-validate, each one
    applied exactly when it is present, whatever the other fields are. *)
Theorem dispatchDisplayCommand_follows_fixed_order
    (command : DisplayCommand.t) (e : Engine) :
  dispatchDisplayCommand command e = (tt, specDispatchDisplayCommand command e).
Proof.
  rewrite run_eta, exec_dispatchDisplayCommand.
  now destruct (fst (dispatchDisplayCommand command e)).
Qed.

(** C8: dispatching a layer command none of whose optional fields is
    populated leaves the engine as it was: no HAL call is made and nothing
    is recorded in the writer. *)
Theorem dispatchLayerCommand_without_fields
    (display : int64_t) (command : LayerCommand.t) (e : Engine) :
  hasNoField command = true ->
  dispatchLayerCommand display command e = (tt, e) /\
  halCalls (exec (dispatchLayerCommand display command) e) = halCalls e /\
  mWriter (exec (dispatchLayerCommand display command) e) = mWriter e.
Proof.
  intro Hno.
  assert (Hrun : dispatchLayerCommand display command e = (tt, e)).
  { unfold hasNoField in Hno. unfold dispatchLayerCommand.
    repeat match type of Hno with
           | match ?x with _ => _ end = true => destruct x; [discriminate|]
           end.
    reflexivity. }
  unfold exec. rewrite Hrun. repeat split.
Qed.

(** C9: for a display command with the plain present flag set and the
    present-or-validate flag clear, when the HAL present fails, the command
    leaves in the writer exactly what it would have left without the
    present flag: the failed present records no error and no fence; its
    only trace is the HAL call. *)
Theorem failed_plain_present_records_nothing
    (command : DisplayCommand.t) (e : Engine) :
  DisplayCommand.presentDisplay command = true ->
  DisplayCommand.presentOrValidateDisplay command = false ->
  let display := DisplayCommand.display command in
  let before := exec (dispatchDisplayCommand (withoutPresent command)) e in
  failed (halStatus (Hal.presentDisplay display) (mHal before)) = true ->
  let e' := exec (dispatchDisplayCommand command) e in
  e' = afterHal (Hal.presentDisplay display) before /\
  mWriter e' = mWriter before /\
  halCalls e' = halCalls before ++ [Hal.presentDisplay display].
Proof.
  intros Hp Hpov display before Hfail e'.
  assert (He' : e' = afterHal (Hal.presentDisplay display) before).
  { subst e' before. rewrite !exec_dispatchDisplayCommand in *.
    unfold specDispatchDisplayCommand, specDisplayFieldOrder in *.
    cbn [fold_left] in *. unfold specApplyField in *.
    cbn [withoutPresent DisplayCommand.display DisplayCommand.layers
         DisplayCommand.colorTransformMatrix DisplayCommand.brightness
         DisplayCommand.clientTarget DisplayCommand.virtualDisplayOutputBuffer
         DisplayCommand.expectedPresentTime DisplayCommand.validateDisplay
         DisplayCommand.acceptDisplayChanges DisplayCommand.presentDisplay
         DisplayCommand.presentOrValidateDisplay] in *.
    rewrite Hp, Hpov in *. fold display in Hfail |- *.
    unfold exec at 1. rewrite executePresentDisplay_run. cbn [snd].
    now rewrite Hfail. }
  rewrite He'. repeat split.
  - apply mWriter_afterHal.
  - apply halCalls_afterHal.
Qed.

Lemma exec_execute_loop (commands : list DisplayCommand.t) :
  forall e : Engine,
    exec (forEach commands (fun command =>
            dispatchDisplayCommand command ;;
            index <- get_mCommandIndex ;;
            set_mCommandIndex (wrap_int32 (index + 1)))) e =
    fold_left executeStep commands e.
Proof.
  induction commands as [|c cs IH]; intro e; [reflexivity|].
  rewrite exec_forEach_cons, exec_execute_body, IH. reflexivity.
Qed.

Lemma fold_executeStep_appends (commands : list DisplayCommand.t) :
  forall e : Engine,
    exists recorded, mWriter (fold_left executeStep commands e) = mWriter e ++ recorded.
Proof.
  induction commands as [|c cs IH]; intro e; cbn [fold_left].
  - exists []. now rewrite app_nil_r.
  - destruct (IH (executeStep e c)) as [l Hl].
    destruct (records_dispatchDisplayCommand c e) as [_ [l0 [Hw0 _]]].
    exists (l0 ++ l). rewrite Hl.
    change (mWriter (executeStep e c)) with (mWriter (exec (dispatchDisplayCommand c) e)).
    rewrite Hw0. now rewrite app_assoc.
Qed.

(** C10: [execute] returns status 0 for every batch and every engine,
    whatever was recorded while dispatching; what was recorded reaches the
    caller through the result list, which is all that the writer holds
    after the last command (what it held before [execute] and everything
    the commands added), and the writer is handed over drained. *)
Theorem execute_returns_zero (commands : list DisplayCommand.t) (e : Engine) :
  let final := fold_left executeStep commands (withIndex 0 e) in
  fst (fst (execute commands e)) = 0 /\
  snd (fst (execute commands e)) = mWriter final /\
  (exists recorded, mWriter final = mWriter e ++ recorded) /\
  exec (execute commands) e = drained final.
Proof.
  intro final. unfold exec. rewrite execute_run, exec_execute_loop. fold final.
  repeat split.
  apply (fold_executeStep_appends commands (withIndex 0 e)).
Qed.
End Properties.

(** * The properties on the sample inputs *)

Lemma execute_indexes_commands_in_order_witness :
  Z.of_nat (length lateFailureBatch) <= INT32_MAX /\
  snd (fst (execute lateFailureBatch (unvalidatedEngine failingHal))) =
    [CommandError 1 HWC2_ERROR_BAD_DISPLAY; CommandError 1 HWC2_ERROR_BAD_DISPLAY].
Proof.
  assert (Hmax : Z.of_nat (length lateFailureBatch) <= INT32_MAX)
    by (vm_compute; discriminate).
  split; [exact Hmax|].
  exact (f_equal (fun run => snd (fst run))
           (proj1 (execute_indexes_commands_in_order lateFailureBatch
                     (unvalidatedEngine failingHal) Hmax))).
Defined.

(** One command may record several errors, all under its own index. *)
Example execute_repeats_index_within_command :
  snd (fst (execute sampleBatch (unvalidatedEngine failingHal))) =
    [CommandError 0 HWC2_ERROR_BAD_DISPLAY; CommandError 0 HWC2_ERROR_BAD_DISPLAY] /\
  fst (fst (execute sampleBatch (unvalidatedEngine failingHal))) = 0.
Proof. split; reflexivity. Qed.

Lemma presentOrValidate_presents_directly_witness :
  mustValidateDisplay 1 (mResources (validatedEngine okHal)) = false /\
  halStatus (Hal.presentDisplay 1)
    (mHal (afterExpectedPresentTime 1 None (validatedEngine okHal))) = HWC2_ERROR_NONE /\
  halCalls (exec (executePresentOrValidateDisplay 1 None) (validatedEngine okHal)) =
    [Hal.setExpectedPresentTime 1 None; Hal.presentDisplay 1].
Proof.
  split; [reflexivity|]. split; [reflexivity|].
  exact (proj1 (proj2 (proj2
           (presentOrValidate_presents_directly 1 None (validatedEngine okHal)
              eq_refl eq_refl)))).
Defined.

Lemma presentOrValidate_validate_fallback_witness :
  (mustValidateDisplay 1 (mResources (unvalidatedEngine okHal)) = true /\
   fallbackValidateErr 1 None (unvalidatedEngine okHal) = HWC2_ERROR_NONE /\
   clientCompositionQuery 1 None (unvalidatedEngine okHal) = false /\
   secondPresentErr 1 None (unvalidatedEngine okHal) = HWC2_ERROR_NONE /\
   protocolOutcomes (exec (executePresentOrValidateDisplay 1 None) (unvalidatedEngine okHal)) =
     [PresentOrValidateResult 1 PresentOrValidate.Presented]) /\
  (fallbackValidateErr 1 None (unvalidatedEngine changesHal) = HWC2_ERROR_HAS_CHANGES /\
   protocolOutcomes
     (exec (executePresentOrValidateDisplay 1 None) (unvalidatedEngine changesHal)) =
     [PresentOrValidateResult 1 PresentOrValidate.Validated]) /\
  (clientCompositionQuery 1 None (unvalidatedEngine clientCompositionHal) = true /\
   protocolOutcomes
     (exec (executePresentOrValidateDisplay 1 None)
        (unvalidatedEngine clientCompositionHal)) =
     [PresentOrValidateResult 1 PresentOrValidate.Validated]).
Proof.
  split; [|split].
  - repeat (split; [reflexivity|]).
    exact (proj2 (proj2 (proj2
             (proj1 (presentOrValidate_validate_fallback 1 None (unvalidatedEngine okHal)
                       eq_refl) eq_refl eq_refl))) eq_refl).
  - split; [reflexivity|].
    exact (proj1 (proj2 (presentOrValidate_validate_fallback 1 None
                           (unvalidatedEngine changesHal) eq_refl)
                    (or_introl eq_refl))).
  - split; [reflexivity|].
    exact (proj1 (proj2 (presentOrValidate_validate_fallback 1 None
                           (unvalidatedEngine clientCompositionHal) eq_refl)
                    (or_intror (conj eq_refl eq_refl)))).
Defined.

Lemma presentOrValidate_publishes_no_outcome_witness :
  (failed (firstPresentErr 1 None (unvalidatedEngine failingValidateHal)) = true /\
   nonFatal (fallbackValidateErr 1 None (unvalidatedEngine failingValidateHal)) = false /\
   mWriter (exec (executePresentOrValidateDisplay 1 None)
              (unvalidatedEngine failingValidateHal)) =
     [CommandError 0 HWC2_ERROR_BAD_DISPLAY]) /\
  (failed (firstPresentErr 1 None (validatedEngine failingPresentHal)) = true /\
   fallbackValidateErr 1 None (validatedEngine failingPresentHal) = HWC2_ERROR_NONE /\
   clientCompositionQuery 1 None (validatedEngine failingPresentHal) = false /\
   failed (secondPresentErr 1 None (validatedEngine failingPresentHal)) = true /\
   mWriter (exec (executePresentOrValidateDisplay 1 None)
              (validatedEngine failingPresentHal)) =
     [ChangedCompositionTypes 1 [] []; DisplayRequest 1 0 [] []]).
Proof.
  split.
  - repeat (split; [reflexivity|]).
    exact (proj1 (proj2 (presentOrValidate_publishes_no_outcome 1 None
                           (unvalidatedEngine failingValidateHal) eq_refl
                           (or_introl eq_refl)))
             eq_refl).
  - repeat (split; [reflexivity|]).
    exact (proj2 (proj2 (presentOrValidate_publishes_no_outcome 1 None
                           (validatedEngine failingPresentHal) eq_refl
                           (or_intror (conj eq_refl (conj eq_refl eq_refl)))))
             eq_refl eq_refl eq_refl).
Defined.

(** C4, as stated, fails: with the flag set and validate answering
    BAD_DISPLAY, the flag is cleared all the same. *)
Lemma hard_validate_error_clears_flag_counterexample :
  ~ hardErrorKeepsMustValidate 1 (unvalidatedEngine failingValidateHal).
Proof.
  unfold hardErrorKeepsMustValidate. intro Hkeep.
  specialize (Hkeep eq_refl). vm_compute in Hkeep. discriminate.
Qed.

(** C5, at a resolution that fails with BAD_LAYER while the HAL accepts every
    call: the HAL is called with the unresolved stream and no error is
    recorded. *)
Theorem sidebandStream_failed_resolution_reaches_hal :
  fst (resolution (mResources (unresolvedEngine okHal))
         (Res.getLayerSidebandStream 1 10 (makeFromAidl sampleHandle))) =
    HWC2_ERROR_BAD_LAYER /\
  halCalls (exec (executeSetLayerSidebandStream 1 10 sampleHandle)
              (unresolvedEngine okHal)) = [Hal.setLayerSidebandStream 1 10 None] /\
  mWriter (exec (executeSetLayerSidebandStream 1 10 sampleHandle)
             (unresolvedEngine okHal)) = [].
Proof. repeat split. Qed.

(** The same field when the resolution succeeds: the HAL is not called. *)
Example sidebandStream_resolved_never_reaches_hal :
  halCalls (exec (executeSetLayerSidebandStream 1 10 sampleHandle) (validatedEngine okHal)) = [] /\
  mWriter (exec (executeSetLayerSidebandStream 1 10 sampleHandle) (validatedEngine okHal)) = [].
Proof. split; reflexivity. Qed.

(** A command carrying validate, accept, present and present-or-validate has
    all four applied, in that order. *)
Example dispatchDisplayCommand_applies_every_field :
  halCalls (exec (dispatchDisplayCommand everythingCommand) (unvalidatedEngine okHal)) =
    [Hal.setLayerZOrder 1 10 5;
     Hal.setExpectedPresentTime 1 None; Hal.validateDisplay 1;
     Hal.acceptDisplayChanges 1;
     Hal.presentDisplay 1;
     Hal.setExpectedPresentTime 1 None; Hal.presentDisplay 1].
Proof. reflexivity. Qed.

Lemma dispatchLayerCommand_without_fields_witness :
  hasNoField (emptyLayerCommand 10) = true /\
  dispatchLayerCommand 1 (emptyLayerCommand 10) (unvalidatedEngine failingHal) =
    (tt, unvalidatedEngine failingHal).
Proof.
  split; [reflexivity|].
  exact (proj1 (dispatchLayerCommand_without_fields 1 (emptyLayerCommand 10)
                  (unvalidatedEngine failingHal) eq_refl)).
Defined.

Lemma failed_plain_present_records_nothing_witness :
  DisplayCommand.presentDisplay presentCommand = true /\
  DisplayCommand.presentOrValidateDisplay presentCommand = false /\
  failed (halStatus (Hal.presentDisplay 1)
            (mHal (exec (dispatchDisplayCommand (withoutPresent presentCommand))
                     (validatedEngine failingPresentHal)))) = true /\
  mWriter (exec (dispatchDisplayCommand presentCommand) (validatedEngine failingPresentHal)) =
    [].
Proof.
  repeat (split; [reflexivity|]).
  exact (proj1 (proj2 (failed_plain_present_records_nothing presentCommand
                         (validatedEngine failingPresentHal) eq_refl eq_refl eq_refl))).
Defined.

(** * Further properties of the engine *)

Section Operations.
Context {H R : Type} `{IComposerHal H} `{IResourceManager R}.

Local Abbreviation M := (M H R).
Local Abbreviation Engine := (Engine H R).

(** ** Forwarded fields *)

Lemma forEach_app {A} (l1 l2 : list A) (body : A -> M unit) :
  same_run (forEach (l1 ++ l2) body) (forEach l1 body ;; forEach l2 body).
Proof.
  induction l1 as [|x l1 IH]; intro e; [reflexivity|].
  cbn [app forEach]. unfold bind. destruct (body x e) as [u e1].
  rewrite IH. reflexivity.
Qed.

Lemma same_run_bind {A B} (m m' : M A) (k k' : A -> M B) :
  same_run m m' -> (forall v, same_run (k v) (k' v)) -> same_run (bind m k) (bind m' k').
Proof.
  intros Hm Hk e. unfold bind. rewrite Hm. destruct (m' e) as [v e1]. apply Hk.
Qed.

Lemma same_run_unit (m : M unit) : same_run (m ;; ret tt) m.
Proof. intro e. unfold bind, ret. now destruct (m e) as [[] e1]. Qed.

Lemma dispatch_field_last {A} (field : option A) (f : A -> M unit) (call : A -> Hal.Call) :
  (forall v, same_run (f v) (statusOnly (call v))) ->
  same_run (DISPATCH_LAYER_COMMAND field f) (forEach (optCall field call) statusOnly).
Proof.
  intros Hf e. destruct field as [v|]; [|reflexivity].
  cbn [DISPATCH_LAYER_COMMAND optCall forEach]. rewrite same_run_unit. apply Hf.
Qed.

Lemma dispatch_field_step {A} (field : option A) (f : A -> M unit) (call : A -> Hal.Call)
    (rest : M unit) (calls : list Hal.Call) :
  (forall v, same_run (f v) (statusOnly (call v))) ->
  same_run rest (forEach calls statusOnly) ->
  same_run (DISPATCH_LAYER_COMMAND field f ;; rest)
    (forEach (optCall field call ++ calls) statusOnly).
Proof.
  intros Hf Hrest e. rewrite forEach_app.
  apply same_run_bind; [now apply dispatch_field_last | intros _; exact Hrest].
Qed.

Lemma dispatch_field_skip {A} (f : A -> M unit) (rest : M unit) (calls : list Hal.Call) :
  same_run rest (forEach calls statusOnly) ->
  same_run (DISPATCH_LAYER_COMMAND None f ;; rest) (forEach calls statusOnly).
Proof. intros Hrest e. apply Hrest. Qed.

Lemma dispatchLayerCommand_forwards (display : int64_t) (command : LayerCommand.t) :
  forwardsOnly command = true ->
  same_run (dispatchLayerCommand display command)
    (forEach (forwardedCalls display command) statusOnly).
Proof.
  unfold forwardsOnly. intro Hf.
  destruct (LayerCommand.buffer command) eqn:Eb; [discriminate|].
  destruct (LayerCommand.sidebandStream command) eqn:Es; [discriminate|].
  unfold dispatchLayerCommand, forwardedCalls. cbv zeta. rewrite Eb, Es.
  repeat first
    [ apply dispatch_field_skip
    | apply dispatch_field_step; [intros v e; reflexivity|]
    | apply dispatch_field_last; intros v e; reflexivity ].
Qed.

Lemma statusOnly_run (c : Hal.Call) (e : Engine) :
  statusOnly c e =
    (tt, if failed (halStatus c (mHal e))
         then recording [CommandError (mCommandIndex e) (halStatus c (mHal e))]
                (afterHal c e)
         else afterHal c e).
Proof.
  unfold statusOnly, recording, afterHal, exec, halStatus, setError_at_mCommandIndex,
    get_mCommandIndex, bind, hal, writer, ret, Writer.setError.
  destruct (halCall c (mHal e)) as [[err out] h]. cbn [fst snd].
  destruct (failed err); reflexivity.
Qed.

Lemma forEach_statusOnly_effect (calls : list Hal.Call) :
  forall e : Engine,
    let e' := exec (forEach calls statusOnly) e in
    halCalls e' = halCalls e ++ calls /\
    mResources e' = mResources e /\
    mCommandIndex e' = mCommandIndex e /\
    mWriter e' = mWriter e ++ callErrors (mCommandIndex e) calls (mHal e).
Proof.
  induction calls as [|c calls IH]; intros e e'; subst e'.
  - cbn. rewrite !app_nil_r. repeat split.
  - rewrite exec_forEach_cons.
    destruct (IH (exec (statusOnly c) e)) as [Hc [Hr [Hi Hw]]].
    assert (Hstep : halCalls (exec (statusOnly c) e) = halCalls e ++ [c] /\
                    mResources (exec (statusOnly c) e) = mResources e /\
                    mCommandIndex (exec (statusOnly c) e) = mCommandIndex e /\
                    mHal (exec (statusOnly c) e) = halNext c (mHal e) /\
                    mWriter (exec (statusOnly c) e) =
                      mWriter e ++
                      (if failed (halStatus c (mHal e))
                       then [CommandError (mCommandIndex e) (halStatus c (mHal e))]
                       else [])).
    { unfold exec. rewrite statusOnly_run. cbn [snd].
      destruct (failed (halStatus c (mHal e)));
        rewrite ?mWriter_recording, ?halCalls_recording;
        unfold recording, exec, writer; cbn [snd mResources mCommandIndex mHal];
        rewrite halCalls_afterHal, mResources_afterHal, mCommandIndex_afterHal,
          mWriter_afterHal, ?app_nil_r;
        repeat split; unfold afterHal, exec, hal, halNext;
        now destruct (halCall c (mHal e)). }
    destruct Hstep as [Hc1 [Hr1 [Hi1 [Hh1 Hw1]]]].
    rewrite Hc, Hr, Hi, Hw, Hc1, Hr1, Hi1, Hh1, Hw1.
    cbn [callErrors]. rewrite <- !app_assoc. repeat split.
Qed.

(** X1: a layer command without buffer and sideband stream makes exactly
    one HAL call per populated field, with the field's value, in the fixed
    field order and whatever the calls answer; it records one error entry
    per failing call, in call order, under the current command index and
    with the status the call returned; it leaves the resource manager
    alone. *)
Theorem dispatchLayerCommand_forwards_fields
    (display : int64_t) (command : LayerCommand.t) (e : Engine) :
  forwardsOnly command = true ->
  let e' := exec (dispatchLayerCommand display command) e in
  halCalls e' = halCalls e ++ forwardedCalls display command /\
  mWriter e' =
    mWriter e ++ callErrors (mCommandIndex e) (forwardedCalls display command) (mHal e) /\
  mResources e' = mResources e.
Proof.
  intros Hf e'. subst e'. unfold exec.
  rewrite (dispatchLayerCommand_forwards display command Hf e).
  destruct (forEach_statusOnly_effect (forwardedCalls display command) e)
    as [Hc [Hr [_ Hw]]].
  repeat split; assumption.
Qed.

Lemma halCalls_layers (display : int64_t) (layers : list LayerCommand.t) :
  forall e : Engine,
    forallb forwardsOnly layers = true ->
    halCalls (fold_left (fun e layerCmd => exec (dispatchLayerCommand display layerCmd) e)
                layers e) =
    halCalls e ++ concat (map (forwardedCalls display) layers).
Proof.
  induction layers as [|l layers IH]; intros e Hall; cbn [fold_left map concat].
  - now rewrite app_nil_r.
  - cbn [forallb] in Hall. apply andb_true_iff in Hall as [Hl Hall].
    rewrite IH by exact Hall.
    destruct (dispatchLayerCommand_forwards_fields display l e Hl) as [Hc _].
    rewrite Hc. now rewrite app_assoc.
Qed.

Lemma halCalls_statusOnly (c : Hal.Call) (e : Engine) :
  halCalls (exec (statusOnly c) e) = halCalls e ++ [c].
Proof.
  destruct (forEach_statusOnly_effect [c] e) as [Hc _].
  rewrite exec_forEach_cons in Hc. exact Hc.
Qed.

Lemma halCalls_executeValidateDisplay (display : int64_t)
    (t : option ClockMonotonicTimestamp) (e : Engine) :
  halCalls (exec (executeValidateDisplay display t) e) =
  halCalls e ++ [Hal.setExpectedPresentTime display t; Hal.validateDisplay display].
Proof.
  unfold executeValidateDisplay. rewrite !exec_bind. cbv beta.
  change (exec (ret tt) ?x) with x.
  rewrite halCalls_executeValidateDisplayInternal.
  unfold exec at 1. rewrite executeSetExpectedPresentTimeInternal_run. cbn [snd].
  unfold afterExpectedPresentTime. rewrite halCalls_afterHal. now rewrite <- app_assoc.
Qed.

(** X2: for a display command without client target, output buffer and
    present-or-validate whose layer commands carry no buffer and no sideband
    stream, the sequence of HAL calls is a function of the command alone:
    all layer calls in list order, then color transform, brightness,
    expected present time and validate, accept-changes, present, each when
    present.  No failing call suppresses a later one. *)
Theorem unconditional_command_calls (command : DisplayCommand.t) (e : Engine) :
  unconditional command = true ->
  int64_range (DisplayCommand.display command) ->
  halCalls (exec (dispatchDisplayCommand command) e) =
  halCalls e ++ unconditionalCalls command.
Proof.
  unfold unconditional. intros Hu Hrange.
  destruct (DisplayCommand.clientTarget command) eqn:Ect; [discriminate|].
  destruct (DisplayCommand.virtualDisplayOutputBuffer command) eqn:Eob; [discriminate|].
  apply andb_true_iff in Hu as [Hpov Hlayers]. apply negb_true_iff in Hpov.
  rewrite exec_dispatchDisplayCommand.
  unfold specDispatchDisplayCommand, specDisplayFieldOrder. cbn [fold_left].
  unfold specApplyField, unconditionalCalls. cbv zeta. rewrite Ect, Eob, Hpov.
  set (d := DisplayCommand.display command) in *.
  set (e0 := fold_left _ (DisplayCommand.layers command) e).
  assert (H0' : halCalls e0 = halCalls e ++
                concat (map (forwardedCalls d) (DisplayCommand.layers command))).
  { subst e0. now apply halCalls_layers. }
  assert (Hct : forall m (x : Engine),
            halCalls (exec (executeSetColorTransform d m) x) =
            halCalls x ++ [Hal.setColorTransform d m]).
  { intros m x. apply (halCalls_statusOnly (Hal.setColorTransform d m)). }
  assert (Hbr : forall b (x : Engine),
            halCalls (exec (executeSetDisplayBrightness d b) x) =
            halCalls x ++ [Hal.setDisplayBrightness d (DisplayBrightness.brightness b)]).
  { intros b x.
    change (exec (executeSetDisplayBrightness d b) x)
      with (exec (statusOnly (Hal.setDisplayBrightness (to_int64 (to_uint64 d))
                                (DisplayBrightness.brightness b))) x).
    rewrite halCalls_statusOnly. now rewrite (to_int64_to_uint64 d Hrange). }
  destruct (DisplayCommand.colorTransformMatrix command);
    destruct (DisplayCommand.brightness command);
    destruct (DisplayCommand.validateDisplay command);
    destruct (DisplayCommand.acceptDisplayChanges command);
    destruct (DisplayCommand.presentDisplay command);
    cbn [optCall app];
    rewrite ?halCalls_executePresentDisplay, ?halCalls_executeAcceptDisplayChanges,
      ?halCalls_executeValidateDisplay, ?Hbr, ?Hct, H0';
    rewrite <- ?app_assoc; cbn [app]; rewrite ?app_nil_r; reflexivity.
Qed.

(** ** Buffer resolution *)

Ltac run_resolution e :=
  unfold exec, bind, resources_update, resources_resolve, setError_at_mCommandIndex,
    get_mCommandIndex, writer, Writer.setError, hal, halStatus, ret;
  cbn [fst snd mResources];
  let rerr := fresh "rerr" in
  let herr := fresh "herr" in
  match goal with
  | |- context [resolve ?c ?r] => destruct (resolve c r) as [[rerr ?] ?]
  end;
  cbn [fst snd mHal];
  destruct (failed rerr); cbn [negb fst snd mHal];
  [ cbn; repeat split; now rewrite ?app_nil_r
  | match goal with
    | |- context [halCall ?c (mHal e)] => destruct (halCall c (mHal e)) as [[herr ?] ?]
    end;
    cbn [fst snd]; destruct (failed herr); cbn; repeat split; now rewrite ?app_nil_r ].

(** X3: the layer buffer is resolved from the cache exactly when the
    command carries no handle; [setLayerBuffer] is called exactly when the
    resolution succeeds, with the resolved handle and the command's fence;
    at most one error is recorded, the resolution's status if it failed and
    else the HAL's if that failed; the releaser is destroyed on every
    path. *)
Theorem executeSetLayerBuffer_effect
    (display layer : int64_t) (buffer : Buffer.t) (e : Engine) :
  let useCache := match Buffer.handle buffer with None => true | Some _ => false end in
  let handle := match Buffer.handle buffer with None => None | Some h => makeFromAidl h end in
  let resolved := resolve (Res.getLayerBuffer display layer (Buffer.slot buffer)
                             useCache handle)
                    (createReleaser true (mResources e)) in
  let rerr := fst (fst resolved) in
  let call := Hal.setLayerBuffer display layer (snd (fst resolved)) (Buffer.fence buffer) in
  let e' := exec (executeSetLayerBuffer display layer buffer) e in
  halCalls e' = halCalls e ++ (if failed rerr then [] else [call]) /\
  mWriter e' =
    mWriter e ++
    (if failed rerr then [CommandError (mCommandIndex e) rerr]
     else if failed (halStatus call (mHal e))
          then [CommandError (mCommandIndex e) (halStatus call (mHal e))]
          else []) /\
  mResources e' = destroyReleaser true (snd resolved).
Proof.
  intros useCache handle resolved rerr call e'.
  subst e' call rerr resolved handle useCache.
  unfold executeSetLayerBuffer. run_resolution e.
Qed.

(** X4: the client target is resolved from the cache exactly when the
    command carries no handle; [setClientTarget] is called exactly when the
    resolution succeeds, with the resolved handle and the command's fence,
    dataspace and damage; at most one error is recorded, the resolution's
    status if it failed and else the HAL's if that failed; the releaser is
    destroyed on every path. *)
Theorem executeSetClientTarget_effect
    (display : int64_t) (command : ClientTarget.t) (e : Engine) :
  let buffer := ClientTarget.buffer command in
  let useCache := match Buffer.handle buffer with None => true | Some _ => false end in
  let handle := match Buffer.handle buffer with None => None | Some h => makeFromAidl h end in
  let resolved := resolve (Res.getDisplayClientTarget display (Buffer.slot buffer)
                             useCache handle)
                    (createReleaser true (mResources e)) in
  let rerr := fst (fst resolved) in
  let call := Hal.setClientTarget display (snd (fst resolved)) (Buffer.fence buffer)
                (ClientTarget.dataspace command) (ClientTarget.damage command) in
  let e' := exec (executeSetClientTarget display command) e in
  halCalls e' = halCalls e ++ (if failed rerr then [] else [call]) /\
  mWriter e' =
    mWriter e ++
    (if failed rerr then [CommandError (mCommandIndex e) rerr]
     else if failed (halStatus call (mHal e))
          then [CommandError (mCommandIndex e) (halStatus call (mHal e))]
          else []) /\
  mResources e' = destroyReleaser true (snd resolved).
Proof.
  intros buffer useCache handle resolved rerr call e'.
  subst e' call rerr resolved handle useCache buffer.
  unfold executeSetClientTarget. cbv zeta. run_resolution e.
Qed.

(** X5: for a display id in the [int64_t] range the output buffer is
    resolved and set under that same id; the resolution is from the cache
    exactly when the command carries no handle; [setOutputBuffer] is called
    exactly when the resolution succeeds; at most one error is recorded; the
    releaser is destroyed on every path. *)
Theorem executeSetOutputBuffer_effect
    (display : int64_t) (buffer : Buffer.t) (e : Engine) :
  int64_range display ->
  let useCache := match Buffer.handle buffer with None => true | Some _ => false end in
  let handle := match Buffer.handle buffer with None => None | Some h => makeFromAidl h end in
  let resolved := resolve (Res.getDisplayOutputBuffer display (Buffer.slot buffer)
                             useCache handle)
                    (createReleaser true (mResources e)) in
  let rerr := fst (fst resolved) in
  let call := Hal.setOutputBuffer display (snd (fst resolved)) (Buffer.fence buffer) in
  let e' := exec (executeSetOutputBuffer display buffer) e in
  halCalls e' = halCalls e ++ (if failed rerr then [] else [call]) /\
  mWriter e' =
    mWriter e ++
    (if failed rerr then [CommandError (mCommandIndex e) rerr]
     else if failed (halStatus call (mHal e))
          then [CommandError (mCommandIndex e) (halStatus call (mHal e))]
          else []) /\
  mResources e' = destroyReleaser true (snd resolved).
Proof.
  intros Hrange useCache handle resolved rerr call e'.
  subst e' call rerr resolved handle useCache.
  unfold executeSetOutputBuffer. cbv zeta.
  rewrite (to_int64_to_uint64 display Hrange). run_resolution e.
Qed.

(** ** Independence from the command index *)

Lemma collaborators_eq (e1 e2 : Engine) :
  collaborators e1 = collaborators e2 ->
  mHal e1 = mHal e2 /\ mResources e1 = mResources e2 /\ halCalls e1 = halCalls e2.
Proof. unfold collaborators. intro Hc. injection Hc. auto. Qed.

Lemma blind_ret {A} (v : A) : index_blind (ret v : M A).
Proof. intros e1 e2 Hc. split; [reflexivity|exact Hc]. Qed.

Lemma blind_bind {A B} (m : M A) (k : A -> M B) :
  index_blind m -> (forall v, index_blind (k v)) -> index_blind (bind m k).
Proof.
  intros Hm Hk e1 e2 Hc. rewrite exec_bind, !bind_run, exec_bind.
  destruct (Hm e1 e2 Hc) as [Hv Hc']. rewrite Hv.
  apply Hk. exact Hc'.
Qed.

Lemma blind_hal (c : Hal.Call) : index_blind (hal c : M (int32_t * Hal.Out c)).
Proof.
  intros e1 e2 Hc. apply collaborators_eq in Hc as [Hh [Hr Hl]].
  unfold exec, hal, collaborators. rewrite Hh.
  destruct (halCall c (mHal e2)) as [reply h]. cbn. now rewrite Hr, Hl.
Qed.

Lemma blind_resources_update (f : R -> R) : index_blind (resources_update f : M unit).
Proof.
  intros e1 e2 Hc. apply collaborators_eq in Hc as [Hh [Hr Hl]].
  unfold exec, resources_update, collaborators. cbn. now rewrite Hh, Hr, Hl.
Qed.

Lemma blind_resources_mustValidateDisplay (display : int64_t) :
  index_blind (resources_mustValidateDisplay display : M bool).
Proof.
  intros e1 e2 Hc. split; [|exact Hc].
  apply collaborators_eq in Hc as [_ [Hr _]].
  unfold resources_mustValidateDisplay. cbn. now rewrite Hr.
Qed.

Lemma blind_resources_resolve (c : Res.Call) :
  index_blind (resources_resolve c : M (int32_t * buffer_handle_t)).
Proof.
  intros e1 e2 Hc. apply collaborators_eq in Hc as [Hh [Hr Hl]].
  unfold exec, resources_resolve, collaborators. rewrite Hr.
  destruct (resolve c (mResources e2)) as [reply r]. cbn. now rewrite Hh, Hl.
Qed.

Lemma blind_writer (f : Writer.t -> Writer.t) : index_blind (writer f : M unit).
Proof. intros e1 e2 Hc. split; [reflexivity|exact Hc]. Qed.

Lemma blind_setError (err : int32_t) : index_blind (setError_at_mCommandIndex err : M unit).
Proof. intros e1 e2 Hc. split; [reflexivity|exact Hc]. Qed.

Lemma blind_forEach {A} (xs : list A) (body : A -> M unit) :
  (forall x, index_blind (body x)) -> index_blind (forEach xs body).
Proof.
  intro Hb. induction xs as [|x xs IH]; cbn [forEach].
  - apply blind_ret.
  - apply blind_bind; [apply Hb | intros _; exact IH].
Qed.

Lemma blind_increment (f : int32_t -> int32_t) :
  index_blind (index <- get_mCommandIndex ;; set_mCommandIndex (f index) : M unit).
Proof. intros e1 e2 Hc. split; [reflexivity|exact Hc]. Qed.

Ltac blind_step :=
  first
    [ apply blind_setError
    | apply blind_increment
    | apply blind_ret
    | apply blind_hal
    | apply blind_resources_update
    | apply blind_resources_mustValidateDisplay
    | apply blind_resources_resolve
    | apply blind_writer
    | apply blind_forEach; intros
    | apply blind_bind; [| intros ]
    | match goal with
      | |- index_blind (match ?x with _ => _ end) => destruct x
      end ].

Lemma blind_dispatchLayerCommand (display : int64_t) (command : LayerCommand.t) :
  index_blind (dispatchLayerCommand display command : M unit).
Proof.
  unfold dispatchLayerCommand, DISPATCH_LAYER_COMMAND.
  unfold executeSetLayerCursorPosition, executeSetLayerBuffer,
    executeSetLayerSurfaceDamage, executeSetLayerBlendMode, executeSetLayerColor,
    executeSetLayerComposition, executeSetLayerDataspace, executeSetLayerDisplayFrame,
    executeSetLayerPlaneAlpha, executeSetLayerSidebandStream, executeSetLayerSourceCrop,
    executeSetLayerTransform, executeSetLayerVisibleRegion, executeSetLayerZOrder,
    executeSetLayerColorTransform, executeSetLayerPerFrameMetadata,
    executeSetLayerPerFrameMetadataBlobs.
  repeat blind_step.
Qed.

Lemma blind_dispatchDisplayCommand (command : DisplayCommand.t) :
  index_blind (dispatchDisplayCommand command : M unit).
Proof.
  unfold dispatchDisplayCommand, DISPATCH_DISPLAY_COMMAND, DISPATCH_DISPLAY_BOOL_COMMAND,
    DISPATCH_DISPLAY_BOOL_COMMAND_AND_DATA.
  apply blind_bind; [apply blind_forEach; intro; apply blind_dispatchLayerCommand|intros _].
  unfold executeSetColorTransform, executeSetClientTarget, executeSetOutputBuffer,
    executeSetDisplayBrightness, executeValidateDisplay, executePresentOrValidateDisplay,
    executeSetExpectedPresentTimeInternal, executeValidateDisplayInternal,
    executeAcceptDisplayChanges, executePresentDisplay.
  repeat blind_step.
Qed.

Lemma blind_execute_loop (commands : list DisplayCommand.t) :
  index_blind (forEach commands (fun command =>
                 dispatchDisplayCommand command ;;
                 index <- get_mCommandIndex ;;
                 set_mCommandIndex (wrap_int32 (index + 1))) : M unit).
Proof.
  apply blind_forEach. intro command.
  apply blind_bind; [apply blind_dispatchDisplayCommand | intros _; apply blind_increment].
Qed.

Lemma exec_forEach_app {A} (l1 l2 : list A) (body : A -> M unit) (e : Engine) :
  exec (forEach (l1 ++ l2) body) e = exec (forEach l2 body) (exec (forEach l1 body) e).
Proof. rewrite !exec_forEach. apply fold_left_app. Qed.

(** X7: the command index and the writer never influence the
    collaborators: executing a batch in two pieces leaves the HAL, the
    resource manager and the sequence of HAL calls exactly as executing it
    whole does. *)
Theorem execute_split_batch (commands1 commands2 : list DisplayCommand.t) (e : Engine) :
  collaborators (exec (execute (commands1 ++ commands2)) e) =
  collaborators (exec (execute commands2) (exec (execute commands1) e)).
Proof.
  unfold exec at 1 2 3. rewrite !execute_run. cbn [snd].
  change (collaborators (drained ?x)) with (collaborators x).
  rewrite exec_forEach_app.
  apply (blind_execute_loop commands2). reflexivity.
Qed.

(** ** Recorded error codes *)

Lemma errorCodes_app (l1 l2 : list CommandResultPayload) :
  errorCodes (l1 ++ l2) = errorCodes l1 ++ errorCodes l2.
Proof.
  induction l1 as [|p l1 IH]; simpl; [reflexivity|].
  destruct p; simpl; now rewrite ?IH.
Qed.

Lemma failures_silent {A} (m : M A) :
  (forall e, mWriter (exec m e) = mWriter e) -> records_failures_only m.
Proof.
  intros Hm e. exists []. rewrite app_nil_r. split; [apply Hm|constructor].
Qed.

Lemma failures_bind {A B} (m : M A) (k : A -> M B) :
  records_failures_only m -> (forall v, records_failures_only (k v)) ->
  records_failures_only (bind m k).
Proof.
  intros Hm Hk e. rewrite exec_bind.
  destruct (Hm e) as [l1 [Hw1 Hf1]].
  destruct (Hk (fst (m e)) (exec m e)) as [l2 [Hw2 Hf2]].
  exists (l1 ++ l2). split.
  - rewrite Hw2, Hw1. now rewrite app_assoc.
  - rewrite errorCodes_app. apply Forall_app. now split.
Qed.

Lemma failures_hal (c : Hal.Call) :
  records_failures_only (hal c : M (int32_t * Hal.Out c)).
Proof. apply failures_silent. intro e. apply (mWriter_afterHal c e). Qed.

Lemma failures_resources_resolve (c : Res.Call) :
  records_failures_only (resources_resolve c : M (int32_t * buffer_handle_t)).
Proof.
  apply failures_silent. intro e. unfold exec, resources_resolve.
  now destruct (resolve c (mResources e)).
Qed.

Lemma failures_setError (err : int32_t) :
  err <> 0 -> records_failures_only (setError_at_mCommandIndex err : M unit).
Proof.
  intros Herr e. exists [CommandError (mCommandIndex e) err].
  split; [reflexivity|]. cbn. now constructor.
Qed.

Lemma failures_payload (p : CommandResultPayload) :
  isError p = false -> records_failures_only (writer (fun w => w ++ [p]) : M unit).
Proof.
  intros Hp e. exists [p]. split; [reflexivity|].
  destruct p; cbn in *; try discriminate; constructor.
Qed.

Lemma failures_forEach {A} (xs : list A) (body : A -> M unit) :
  (forall x, records_failures_only (body x)) -> records_failures_only (forEach xs body).
Proof.
  intro Hb. induction xs as [|x xs IH]; cbn [forEach].
  - now apply failures_silent.
  - apply failures_bind; [apply Hb | intros _; exact IH].
Qed.

Ltac nonzero :=
  let Hz := fresh in
  intro Hz; subst;
  match goal with
  | Hx : _ = _ |- _ => vm_compute in Hx; discriminate Hx
  end.

Ltac failures_step :=
  first
    [ apply failures_setError; nonzero
    | apply failures_hal
    | apply failures_resources_resolve
    | apply failures_payload; reflexivity
    | apply failures_silent; intro; reflexivity
    | apply failures_forEach; intros
    | apply failures_bind; [| intros ]
    | match goal with
      | |- records_failures_only (match ?x with _ => _ end) => destruct x eqn:?
      end ].

Lemma failures_dispatchLayerCommand (display : int64_t) (command : LayerCommand.t) :
  records_failures_only (dispatchLayerCommand display command : M unit).
Proof.
  unfold dispatchLayerCommand, DISPATCH_LAYER_COMMAND.
  unfold executeSetLayerCursorPosition, executeSetLayerBuffer,
    executeSetLayerSurfaceDamage, executeSetLayerBlendMode, executeSetLayerColor,
    executeSetLayerComposition, executeSetLayerDataspace, executeSetLayerDisplayFrame,
    executeSetLayerPlaneAlpha, executeSetLayerSidebandStream, executeSetLayerSourceCrop,
    executeSetLayerTransform, executeSetLayerVisibleRegion, executeSetLayerZOrder,
    executeSetLayerColorTransform, executeSetLayerPerFrameMetadata,
    executeSetLayerPerFrameMetadataBlobs.
  repeat failures_step.
Qed.

Lemma failures_dispatchDisplayCommand (command : DisplayCommand.t) :
  records_failures_only (dispatchDisplayCommand command : M unit).
Proof.
  unfold dispatchDisplayCommand, DISPATCH_DISPLAY_COMMAND, DISPATCH_DISPLAY_BOOL_COMMAND,
    DISPATCH_DISPLAY_BOOL_COMMAND_AND_DATA.
  apply failures_bind;
    [apply failures_forEach; intro; apply failures_dispatchLayerCommand|intros _].
  unfold executeSetColorTransform, executeSetClientTarget, executeSetOutputBuffer,
    executeSetDisplayBrightness, executeValidateDisplay, executePresentOrValidateDisplay,
    executeSetExpectedPresentTimeInternal, executeValidateDisplayInternal,
    executeAcceptDisplayChanges, executePresentDisplay.
  repeat failures_step.
Qed.

(** X8: whatever the batch and the collaborators, [execute] only appends
    to what the writer held, and every error entry it appends carries a
    non-zero code: a success status is never recorded as an error. *)
Theorem execute_records_nonzero_codes (commands : list DisplayCommand.t) (e : Engine) :
  exists recorded,
    snd (fst (execute commands e)) = mWriter e ++ recorded /\
    Forall (fun code => code <> 0) (errorCodes recorded).
Proof.
  rewrite execute_run. cbn [fst snd].
  assert (Hloop : records_failures_only
            (forEach commands (fun command =>
               dispatchDisplayCommand command ;;
               index <- get_mCommandIndex ;;
               set_mCommandIndex (wrap_int32 (index + 1))) : M unit)).
  { apply failures_forEach. intro command.
    apply failures_bind; [apply failures_dispatchDisplayCommand|intros _].
    apply failures_silent. intro; reflexivity. }
  destruct (Hloop (withIndex 0 e)) as [l [Hw Hf]].
  exists l. split; [exact Hw|exact Hf].
Qed.

(** ** The present/validate protocol *)

Lemma mResources_executePresentDisplay (display : int64_t) (e : Engine) :
  mResources (exec (executePresentDisplay display) e) = mResources e.
Proof.
  unfold exec. rewrite executePresentDisplay_run. cbn [snd].
  destruct (failed (halStatus (Hal.presentDisplay display) (mHal e)));
    unfold recording, exec, writer; cbn [snd mResources]; apply mResources_afterHal.
Qed.

Lemma mResources_executeAcceptDisplayChanges (display : int64_t) (e : Engine) :
  mResources (exec (executeAcceptDisplayChanges display) e) = mResources e.
Proof.
  unfold exec. rewrite executeAcceptDisplayChanges_run. cbn [snd].
  destruct (failed (halStatus (Hal.acceptDisplayChanges display) (mHal e)));
    unfold recording, exec, writer; cbn [snd mResources]; apply mResources_afterHal.
Qed.

Lemma mResources_afterFirstPresent (display : int64_t)
    (t : option ClockMonotonicTimestamp) (e : Engine) :
  mResources (afterFirstPresent display t e) = mResources e.
Proof.
  unfold afterFirstPresent, afterExpectedPresentTime.
  destruct (mustValidateDisplay display (mResources e));
    rewrite ?mResources_executePresentDisplay; apply mResources_afterHal.
Qed.

Lemma mustValidate_afterFallbackValidate (display : int64_t)
    (t : option ClockMonotonicTimestamp) (e : Engine) :
  mustValidateDisplay display (mResources (afterFallbackValidate display t e)) = false.
Proof.
  unfold afterFallbackValidate. rewrite mResources_executeValidateDisplayInternal.
  apply mustValidate_cleared.
Qed.

Lemma mResources_afterSecondPresent (display : int64_t)
    (t : option ClockMonotonicTimestamp) (e : Engine) :
  mResources (afterSecondPresent display t e) =
  mResources (afterFallbackValidate display t e).
Proof.
  unfold afterSecondPresent, afterAccept.
  now rewrite mResources_executePresentDisplay, mResources_executeAcceptDisplayChanges,
    mResources_afterHal.
Qed.

(** X10: after present-or-validate the must-validate flag of the display
    is clear, on every path: either it was clear and the direct present
    succeeded, or the fallback validate cleared it. *)
Theorem presentOrValidate_leaves_display_validated
    (display : int64_t) (t : option ClockMonotonicTimestamp) (e : Engine) :
  mustValidateDisplay display
    (mResources (exec (executePresentOrValidateDisplay display t) e)) = false.
Proof.
  rewrite executePresentOrValidateDisplay_run.
  destruct (negb (failed (firstPresentErr display t e))) eqn:Efirst.
  - change (mResources (recording ?l ?x)) with (mResources x).
    rewrite mResources_afterFirstPresent.
    unfold firstPresentErr in Efirst.
    destruct (mustValidateDisplay display (mResources e)); [discriminate|reflexivity].
  - destruct (negb (nonFatal (fallbackValidateErr display t e)));
      [apply mustValidate_afterFallbackValidate|].
    destruct (fallbackValidateErr display t e =? HWC2_ERROR_HAS_CHANGES);
      [apply mustValidate_afterFallbackValidate|].
    destruct (clientCompositionQuery display t e).
    + change (mResources (recording ?l ?x)) with (mResources x).
      rewrite mResources_afterHal. apply mustValidate_afterFallbackValidate.
    + destruct (negb (failed (secondPresentErr display t e)));
        change (mResources (recording ?l ?x)) with (mResources x);
        rewrite mResources_afterSecondPresent; apply mustValidate_afterFallbackValidate.
Qed.

Lemma halCalls_presentOrValidate (display : int64_t) (t : option ClockMonotonicTimestamp)
    (e : Engine) :
  halCalls (exec (executePresentOrValidateDisplay display t) e) =
  halCalls (afterFirstPresent display t e) ++ fallbackCalls display t e.
Proof.
  rewrite executePresentOrValidateDisplay_run. unfold fallbackCalls.
  destruct (negb (failed (firstPresentErr display t e)));
    [now rewrite halCalls_recording, app_nil_r|].
  destruct (negb (nonFatal (fallbackValidateErr display t e)));
    [apply halCalls_afterFallbackValidate|].
  destruct (fallbackValidateErr display t e =? HWC2_ERROR_HAS_CHANGES);
    [rewrite halCalls_recording; apply halCalls_afterFallbackValidate|].
  destruct (clientCompositionQuery display t e).
  - rewrite halCalls_recording, halCalls_afterHal, halCalls_afterFallbackValidate.
    now rewrite <- app_assoc.
  - destruct (negb (failed (secondPresentErr display t e)));
      rewrite ?halCalls_recording; apply halCalls_afterSecondPresent.
Qed.

Lemma protocolOutcomes_presentOrValidate (display : int64_t)
    (t : option ClockMonotonicTimestamp) (e : Engine) :
  exists outcomes,
    protocolOutcomes (exec (executePresentOrValidateDisplay display t) e) =
      protocolOutcomes e ++ outcomes /\
    (length outcomes <= 1)%nat.
Proof.
  rewrite executePresentOrValidateDisplay_run.
  destruct (negb (failed (firstPresentErr display t e))).
  { eexists. rewrite protocolOutcomes_recording, protocolOutcomes_afterFirstPresent.
    split; [reflexivity|cbn; lia]. }
  destruct (negb (nonFatal (fallbackValidateErr display t e))).
  { exists []. rewrite protocolOutcomes_afterFallbackValidate, app_nil_r.
    split; [reflexivity|cbn; lia]. }
  destruct (fallbackValidateErr display t e =? HWC2_ERROR_HAS_CHANGES).
  { eexists. rewrite protocolOutcomes_recording, protocolOutcomes_afterFallbackValidate.
    split; [reflexivity|cbn; lia]. }
  destruct (clientCompositionQuery display t e).
  { eexists. rewrite protocolOutcomes_recording, protocolOutcomes_afterHal,
      protocolOutcomes_afterFallbackValidate.
    split; [reflexivity|cbn; lia]. }
  destruct (negb (failed (secondPresentErr display t e))).
  - eexists. rewrite protocolOutcomes_recording, protocolOutcomes_afterSecondPresent.
    split; [reflexivity|cbn; lia].
  - exists []. rewrite protocolOutcomes_afterSecondPresent, app_nil_r.
    split; [reflexivity|cbn; lia].
Qed.

(** X11: one present-or-validate command first sets the expected present
    time and then makes at most one validate call, accept-changes only if
    it validated, and no more presents than accepts plus the one direct
    attempt it makes when the must-validate flag is clear; it publishes at
    most one protocol outcome. *)
Theorem presentOrValidate_call_bounds
    (display : int64_t) (t : option ClockMonotonicTimestamp) (e : Engine) :
  let e' := exec (executePresentOrValidateDisplay display t) e in
  exists calls outcomes,
    halCalls e' = halCalls e ++ Hal.setExpectedPresentTime display t :: calls /\
    protocolOutcomes e' = protocolOutcomes e ++ outcomes /\
    (length outcomes <= 1)%nat /\
    (countCalls Hal.isValidate calls <= 1)%nat /\
    (countCalls Hal.isAccept calls <= countCalls Hal.isValidate calls)%nat /\
    (countCalls Hal.isPresent calls <=
     countCalls Hal.isAccept calls +
     (if mustValidateDisplay display (mResources e) then 0 else 1))%nat.
Proof.
  intro e'. subst e'.
  destruct (protocolOutcomes_presentOrValidate display t e) as [outcomes [Ho Hlen]].
  exists ((if mustValidateDisplay display (mResources e) then []
           else [Hal.presentDisplay display]) ++ fallbackCalls display t e), outcomes.
  split.
  { rewrite halCalls_presentOrValidate, halCalls_afterFirstPresent.
    now rewrite <- app_assoc. }
  split; [exact Ho|]. split; [exact Hlen|].
  rewrite !countCalls_app. unfold fallbackCalls.
  destruct (mustValidateDisplay display (mResources e));
    destruct (negb (failed (firstPresentErr display t e)));
    destruct (negb (nonFatal (fallbackValidateErr display t e)));
    destruct (fallbackValidateErr display t e =? HWC2_ERROR_HAS_CHANGES);
    destruct (clientCompositionQuery display t e);
    cbn; repeat split; lia.
Qed.

Lemma exec_executeValidateDisplay (display : int64_t)
    (t : option ClockMonotonicTimestamp) (e : Engine) :
  exec (executeValidateDisplay display t) e =
  exec (executeValidateDisplayInternal display) (afterExpectedPresentTime display t e).
Proof.
  unfold executeValidateDisplay. rewrite !exec_bind. cbv beta.
  change (exec (ret tt) ?x) with x.
  unfold exec at 2. now rewrite executeSetExpectedPresentTimeInternal_run.
Qed.

(** X12: after a validate command on a display, whatever status the
    validate returned, a present-or-validate on that display attempts the
    present directly; when that present succeeds its only HAL calls are the
    expected present time and the present, and it publishes [Presented]. *)
Theorem validate_then_presentOrValidate
    (display : int64_t) (t t' : option ClockMonotonicTimestamp) (e : Engine) :
  let validated := exec (executeValidateDisplay display t) e in
  halStatus (Hal.presentDisplay display)
    (mHal (afterExpectedPresentTime display t' validated)) = HWC2_ERROR_NONE ->
  let e' := exec (executePresentOrValidateDisplay display t') validated in
  halCalls e' =
    halCalls e ++
    [Hal.setExpectedPresentTime display t; Hal.validateDisplay display;
     Hal.setExpectedPresentTime display t'; Hal.presentDisplay display] /\
  protocolOutcomes e' =
    protocolOutcomes e ++ [PresentOrValidateResult display PresentOrValidate.Presented].
Proof.
  intros validated Hok e'.
  assert (Hmv : mustValidateDisplay display (mResources validated) = false).
  { subst validated. rewrite exec_executeValidateDisplay,
      mResources_executeValidateDisplayInternal. apply mustValidate_cleared. }
  assert (He' : e' = recording [PresentOrValidateResult display PresentOrValidate.Presented]
                       (afterFirstPresent display t' validated)).
  { subst e'. rewrite executePresentOrValidateDisplay_run.
    unfold firstPresentErr. now rewrite Hmv, Hok. }
  rewrite He'. split.
  - rewrite halCalls_recording, halCalls_afterFirstPresent, Hmv.
    subst validated. rewrite exec_executeValidateDisplay,
      halCalls_executeValidateDisplayInternal.
    unfold afterExpectedPresentTime. rewrite halCalls_afterHal.
    now rewrite <- !app_assoc.
  - rewrite protocolOutcomes_recording, protocolOutcomes_afterFirstPresent.
    subst validated. rewrite exec_executeValidateDisplay,
      protocolOutcomes_executeValidateDisplayInternal.
    unfold afterExpectedPresentTime. now rewrite protocolOutcomes_afterHal.
Qed.

(** ** Addressing of the HAL calls *)

Lemma within_silent (P : Hal.Call -> Prop) {A} (m : M A) :
  (forall e, halCalls (exec m e) = halCalls e) -> calls_within P m.
Proof.
  intros Hm e. exists []. rewrite app_nil_r. split; [apply Hm|constructor].
Qed.

Lemma within_bind (P : Hal.Call -> Prop) {A B} (m : M A) (k : A -> M B) :
  calls_within P m -> (forall v, calls_within P (k v)) -> calls_within P (bind m k).
Proof.
  intros Hm Hk e. rewrite exec_bind.
  destruct (Hm e) as [l1 [Hc1 Hf1]].
  destruct (Hk (fst (m e)) (exec m e)) as [l2 [Hc2 Hf2]].
  exists (l1 ++ l2). split.
  - rewrite Hc2, Hc1. now rewrite app_assoc.
  - apply Forall_app. now split.
Qed.

Lemma within_hal (P : Hal.Call -> Prop) (c : Hal.Call) :
  P c -> calls_within P (hal c : M (int32_t * Hal.Out c)).
Proof.
  intros Hc e. exists [c]. split; [apply (halCalls_afterHal c e)|].
  now constructor.
Qed.

Lemma within_resources_resolve (P : Hal.Call -> Prop) (c : Res.Call) :
  calls_within P (resources_resolve c : M (int32_t * buffer_handle_t)).
Proof.
  apply within_silent. intro e. unfold exec, resources_resolve.
  now destruct (resolve c (mResources e)).
Qed.

Lemma within_forEach_In (P : Hal.Call -> Prop) {A} (xs : list A) (body : A -> M unit) :
  (forall x, In x xs -> calls_within P (body x)) -> calls_within P (forEach xs body).
Proof.
  induction xs as [|x xs IH]; intro Hb; cbn [forEach].
  - now apply within_silent.
  - apply within_bind; [apply Hb; now left | intros _; apply IH].
    intros y Hy. apply Hb. now right.
Qed.

Lemma within_weaken (P Q : Hal.Call -> Prop) {A} (m : M A) :
  (forall c, P c -> Q c) -> calls_within P m -> calls_within Q m.
Proof.
  intros HPQ Hm e. destruct (Hm e) as [l [Hc Hf]].
  exists l. split; [exact Hc|]. eapply Forall_impl; [exact HPQ|exact Hf].
Qed.

Ltac within_step side :=
  first
    [ apply within_hal; side
    | apply within_resources_resolve
    | apply within_silent; intro; reflexivity
    | apply within_bind; [| intros ]
    | match goal with
      | |- calls_within _ (match ?x with _ => _ end) => destruct x
      end ].

Lemma within_dispatchLayerCommand (display : int64_t) (command : LayerCommand.t) :
  calls_within (fun c => callDisplay c = display /\
                         callLayer c = Some (LayerCommand.layer command))
    (dispatchLayerCommand display command : M unit).
Proof.
  unfold dispatchLayerCommand, DISPATCH_LAYER_COMMAND.
  unfold executeSetLayerCursorPosition, executeSetLayerBuffer,
    executeSetLayerSurfaceDamage, executeSetLayerBlendMode, executeSetLayerColor,
    executeSetLayerComposition, executeSetLayerDataspace, executeSetLayerDisplayFrame,
    executeSetLayerPlaneAlpha, executeSetLayerSidebandStream, executeSetLayerSourceCrop,
    executeSetLayerTransform, executeSetLayerVisibleRegion, executeSetLayerZOrder,
    executeSetLayerColorTransform, executeSetLayerPerFrameMetadata,
    executeSetLayerPerFrameMetadataBlobs.
  repeat within_step ltac:(split; reflexivity).
Qed.

Lemma within_dispatchDisplayCommand (command : DisplayCommand.t) :
  int64_range (DisplayCommand.display command) ->
  calls_within (addressedBy command) (dispatchDisplayCommand command : M unit).
Proof.
  intro Hrange.
  unfold dispatchDisplayCommand, DISPATCH_DISPLAY_COMMAND, DISPATCH_DISPLAY_BOOL_COMMAND,
    DISPATCH_DISPLAY_BOOL_COMMAND_AND_DATA.
  apply within_bind.
  { apply within_forEach_In. intros layerCmd Hin.
    eapply within_weaken; [|apply within_dispatchLayerCommand].
    intros c [Hd Hl]. split; [exact Hd|].
    intros layer Hc. rewrite Hl in Hc. injection Hc as <-.
    now apply in_map. }
  intros _.
  unfold executeSetColorTransform, executeSetClientTarget, executeSetOutputBuffer,
    executeSetDisplayBrightness, executeValidateDisplay, executePresentOrValidateDisplay,
    executeSetExpectedPresentTimeInternal, executeValidateDisplayInternal,
    executeAcceptDisplayChanges, executePresentDisplay.
  repeat within_step
    ltac:(split; [cbn [callDisplay]; first [reflexivity | now apply to_int64_to_uint64]
                 | intros ? ?; discriminate]).
Qed.

(** X13: when the display ids of the batch fit [int64_t], every HAL call
    [execute] makes is addressed to the display of a command of the batch
    and, if it is a layer call, to the layer of one of that command's layer
    commands. *)
Theorem execute_calls_only_named_targets (commands : list DisplayCommand.t) (e : Engine) :
  Forall (fun command => int64_range (DisplayCommand.display command)) commands ->
  exists calls,
    halCalls (exec (execute commands) e) = halCalls e ++ calls /\
    Forall (fun c => exists command, In command commands /\ addressedBy command c) calls.
Proof.
  intro Hrange. unfold exec. rewrite execute_run. cbn [snd].
  change (halCalls (drained ?x)) with (halCalls x).
  assert (Hloop : calls_within
            (fun c => exists command, In command commands /\ addressedBy command c)
            (forEach commands (fun command =>
               dispatchDisplayCommand command ;;
               index <- get_mCommandIndex ;;
               set_mCommandIndex (wrap_int32 (index + 1))) : M unit)).
  { apply within_forEach_In. intros command Hin.
    apply within_bind; [|intros _; apply within_silent; intro; reflexivity].
    eapply within_weaken; [|apply within_dispatchDisplayCommand].
    - intros c Hc. exists command. now split.
    - rewrite Forall_forall in Hrange. now apply Hrange. }
  destruct (Hloop (withIndex 0 e)) as [l [Hc Hf]].
  exists l. split; [exact Hc|exact Hf].
Qed.
End Operations.

(** ** Runs without failures *)

Section CleanRun.
Context {H R : Type} `{IComposerHal H} `{IResourceManager R}.

Local Abbreviation M := (M H R).
Local Abbreviation Engine := (Engine H R).

Variable okH : H -> Prop.
Variable okR : R -> Prop.
Hypothesis hal_succeeds :
  forall c h, okH h -> halStatus c h = HWC2_ERROR_NONE /\ okH (halNext c h).
Hypothesis resolve_succeeds :
  forall c r, okR r -> fst (fst (resolve c r)) = HWC2_ERROR_NONE /\ okR (snd (resolve c r)).
Hypothesis setDisplayMustValidateState_ok :
  forall display v r, okR r -> okR (setDisplayMustValidateState display v r).
Hypothesis createReleaser_ok : forall b r, okR r -> okR (createReleaser b r).
Hypothesis destroyReleaser_ok : forall b r, okR r -> okR (destroyReleaser b r).

Lemma clean_ret {A} (v : A) : stays_clean okH okR (ret v : M A).
Proof. intros e Hh Hr. repeat split; assumption. Qed.

Lemma clean_bind {A B} (m : M A) (k : A -> M B) :
  stays_clean okH okR m -> (forall v, stays_clean okH okR (k v)) ->
  stays_clean okH okR (bind m k).
Proof.
  intros Hm Hk e Hh Hr. rewrite exec_bind.
  destruct (Hm e Hh Hr) as [Hw [Hh1 Hr1]].
  destruct (Hk (fst (m e)) (exec m e) Hh1 Hr1) as [Hw2 [Hh2 Hr2]].
  repeat split; [congruence|assumption|assumption].
Qed.

Lemma clean_hal_bind {B} (c : Hal.Call) (k : int32_t * Hal.Out c -> M B) :
  (forall out, stays_clean okH okR (k (HWC2_ERROR_NONE, out))) ->
  stays_clean okH okR (bind (hal c) k).
Proof.
  intros Hk e Hh Hr. rewrite exec_bind, hal_run. cbn [fst].
  destruct (hal_succeeds c (mHal e) Hh) as [Hs Hn]. rewrite Hs.
  fold (afterHal c e).
  destruct (Hk (halOut c (mHal e)) (afterHal c e)) as [Hw [Hh1 Hr1]].
  - unfold afterHal, exec, hal, halNext in *. now destruct (halCall c (mHal e)).
  - now rewrite mResources_afterHal.
  - rewrite mWriter_afterHal in Hw. repeat split; assumption.
Qed.

Lemma clean_resolve_bind {B} (c : Res.Call) (k : int32_t * buffer_handle_t -> M B) :
  (forall handle, stays_clean okH okR (k (HWC2_ERROR_NONE, handle))) ->
  stays_clean okH okR (bind (resources_resolve c) k).
Proof.
  intros Hk e Hh Hr.
  destruct (resolve_succeeds c (mResources e) Hr) as [Hs Hn].
  assert (Hrun : resources_resolve c e =
                 ((HWC2_ERROR_NONE, snd (fst (resolve c (mResources e)))),
                  {| mCommandIndex := mCommandIndex e; mWriter := mWriter e;
                     mHal := mHal e; mResources := snd (resolve c (mResources e));
                     halCalls := halCalls e |})).
  { unfold resources_resolve.
    destruct (resolve c (mResources e)) as [[err handle] r]. cbn [fst snd] in *.
    now subst err. }
  unfold exec. rewrite bind_run, Hrun. cbn [fst snd].
  match goal with
  | |- context [k _ ?e1] => exact (Hk _ e1 Hh Hn)
  end.
Qed.

Lemma clean_resources_update (f : R -> R) :
  (forall r, okR r -> okR (f r)) -> stays_clean okH okR (resources_update f : M unit).
Proof. intros Hf e Hh Hr. repeat split; [assumption|now apply Hf]. Qed.

Lemma clean_payload (p : CommandResultPayload) :
  isError p = false -> stays_clean okH okR (writer (fun w => w ++ [p]) : M unit).
Proof.
  intros Hp e Hh Hr. repeat split; try assumption.
  unfold exec, writer. cbn [snd mWriter]. rewrite errorCodes_app.
  destruct p; cbn in *; try discriminate; apply app_nil_r.
Qed.

Lemma clean_silent {A} (m : M A) :
  (forall e, exec m e = e) -> stays_clean okH okR m.
Proof. intros Hm e Hh Hr. rewrite Hm. repeat split; assumption. Qed.

Lemma clean_forEach {A} (xs : list A) (body : A -> M unit) :
  (forall x, stays_clean okH okR (body x)) -> stays_clean okH okR (forEach xs body).
Proof.
  intro Hb. induction xs as [|x xs IH]; cbn [forEach].
  - apply clean_ret.
  - apply clean_bind; [apply Hb | intros _; exact IH].
Qed.

Ltac clean_step :=
  first
    [ apply clean_hal_bind; intros;
      cbn [failed negb orb andb Z.eqb HWC2_ERROR_NONE HWC2_ERROR_HAS_CHANGES]
    | apply clean_resolve_bind; intros;
      cbn [failed negb orb andb Z.eqb HWC2_ERROR_NONE HWC2_ERROR_HAS_CHANGES]
    | apply clean_ret
    | apply clean_payload; reflexivity
    | apply clean_resources_update; intros;
      first [ now apply setDisplayMustValidateState_ok
            | now apply createReleaser_ok | now apply destroyReleaser_ok ]
    | apply clean_silent; intro; reflexivity
    | apply clean_forEach; intros
    | apply clean_bind; [| intros ]
    | match goal with
      | |- stays_clean _ _ (match ?x with _ => _ end) => destruct x
      end ].

Lemma clean_dispatchLayerCommand (display : int64_t) (command : LayerCommand.t) :
  stays_clean okH okR (dispatchLayerCommand display command : M unit).
Proof.
  unfold dispatchLayerCommand, DISPATCH_LAYER_COMMAND.
  unfold executeSetLayerCursorPosition, executeSetLayerBuffer,
    executeSetLayerSurfaceDamage, executeSetLayerBlendMode, executeSetLayerColor,
    executeSetLayerComposition, executeSetLayerDataspace, executeSetLayerDisplayFrame,
    executeSetLayerPlaneAlpha, executeSetLayerSidebandStream, executeSetLayerSourceCrop,
    executeSetLayerTransform, executeSetLayerVisibleRegion, executeSetLayerZOrder,
    executeSetLayerColorTransform, executeSetLayerPerFrameMetadata,
    executeSetLayerPerFrameMetadataBlobs.
  repeat clean_step.
Qed.

Lemma clean_dispatchDisplayCommand (command : DisplayCommand.t) :
  stays_clean okH okR (dispatchDisplayCommand command : M unit).
Proof.
  unfold dispatchDisplayCommand, DISPATCH_DISPLAY_COMMAND, DISPATCH_DISPLAY_BOOL_COMMAND,
    DISPATCH_DISPLAY_BOOL_COMMAND_AND_DATA.
  apply clean_bind;
    [apply clean_forEach; intro; apply clean_dispatchLayerCommand|intros _].
  unfold executeSetColorTransform, executeSetClientTarget, executeSetOutputBuffer,
    executeSetDisplayBrightness, executeValidateDisplay, executePresentOrValidateDisplay,
    executeSetExpectedPresentTimeInternal, executeValidateDisplayInternal,
    executeAcceptDisplayChanges, executePresentDisplay.
  repeat clean_step.
Qed.

(** X9: when the HAL answers every call with success and the resource
    manager resolves every buffer, from the states they start in and the
    states they move to, [execute] records no error entry, whatever the
    batch. *)
Theorem execute_clean_run (commands : list DisplayCommand.t) (e : Engine) :
  okH (mHal e) -> okR (mResources e) ->
  errorCodes (snd (fst (execute commands e))) = errorCodes (mWriter e).
Proof.
  intros Hh Hr. rewrite execute_run. cbn [fst snd].
  assert (Hloop : stays_clean okH okR
            (forEach commands (fun command =>
               dispatchDisplayCommand command ;;
               index <- get_mCommandIndex ;;
               set_mCommandIndex (wrap_int32 (index + 1))) : M unit)).
  { apply clean_forEach. intro command.
    apply clean_bind; [apply clean_dispatchDisplayCommand|intros _].
    intros x Hx Hrx. repeat split; assumption. }
  now destruct (Hloop (withIndex 0 e) Hh Hr) as [Hw _].
Qed.
End CleanRun.

(** * The further properties on the sample inputs *)

Lemma dispatchLayerCommand_forwards_fields_witness :
  forwardsOnly zOrderLayerCommand = true /\
  halCalls (exec (dispatchLayerCommand 1 zOrderLayerCommand) (unvalidatedEngine failingHal)) =
    [Hal.setLayerZOrder 1 10 5] /\
  mWriter (exec (dispatchLayerCommand 1 zOrderLayerCommand) (unvalidatedEngine failingHal)) =
    [CommandError 0 HWC2_ERROR_BAD_DISPLAY].
Proof.
  split; [reflexivity|].
  split.
  - exact (proj1 (dispatchLayerCommand_forwards_fields 1 zOrderLayerCommand
                    (unvalidatedEngine failingHal) eq_refl)).
  - exact (proj1 (proj2 (dispatchLayerCommand_forwards_fields 1 zOrderLayerCommand
                           (unvalidatedEngine failingHal) eq_refl))).
Defined.

Lemma unconditional_command_calls_witness :
  unconditional validateCommand = true /\
  int64_range (DisplayCommand.display validateCommand) /\
  halCalls (exec (dispatchDisplayCommand validateCommand) (unvalidatedEngine failingHal)) =
    [Hal.setLayerZOrder 1 10 5; Hal.setExpectedPresentTime 1 None; Hal.validateDisplay 1].
Proof.
  split; [reflexivity|].
  assert (Hrange : int64_range (DisplayCommand.display validateCommand))
    by (unfold int64_range; cbn; lia).
  split; [exact Hrange|].
  exact (unconditional_command_calls validateCommand (unvalidatedEngine failingHal)
           eq_refl Hrange).
Defined.

Lemma executeSetOutputBuffer_effect_witness :
  int64_range 1 /\
  halCalls (exec (executeSetOutputBuffer 1 cachedBuffer) (validatedEngine failingHal)) =
    [Hal.setOutputBuffer 1 None 7] /\
  mWriter (exec (executeSetOutputBuffer 1 cachedBuffer) (validatedEngine failingHal)) =
    [CommandError 0 HWC2_ERROR_BAD_DISPLAY].
Proof.
  assert (Hrange : int64_range 1) by (unfold int64_range; lia).
  split; [exact Hrange|].
  split.
  - exact (proj1 (executeSetOutputBuffer_effect 1 cachedBuffer
                    (validatedEngine failingHal) Hrange)).
  - exact (proj1 (proj2 (executeSetOutputBuffer_effect 1 cachedBuffer
                           (validatedEngine failingHal) Hrange))).
Defined.

Lemma validate_then_presentOrValidate_witness :
  halStatus (Hal.presentDisplay 1)
    (mHal (afterExpectedPresentTime 1 None
             (exec (executeValidateDisplay 1 None)
                (unvalidatedEngine failingValidateHal)))) = HWC2_ERROR_NONE /\
  halCalls (exec (executePresentOrValidateDisplay 1 None)
              (exec (executeValidateDisplay 1 None)
                 (unvalidatedEngine failingValidateHal))) =
    [Hal.setExpectedPresentTime 1 None; Hal.validateDisplay 1;
     Hal.setExpectedPresentTime 1 None; Hal.presentDisplay 1].
Proof.
  split; [reflexivity|].
  exact (proj1 (validate_then_presentOrValidate 1 None None
                  (unvalidatedEngine failingValidateHal) eq_refl)).
Defined.

Lemma execute_calls_only_named_targets_witness :
  Forall (fun command => int64_range (DisplayCommand.display command)) sampleBatch /\
  exists calls,
    halCalls (exec (execute sampleBatch) (unvalidatedEngine okHal)) =
      halCalls (unvalidatedEngine okHal) ++ calls /\
    Forall (fun c => exists command, In command sampleBatch /\ addressedBy command c) calls.
Proof.
  assert (Hrange : Forall (fun command => int64_range (DisplayCommand.display command))
                     sampleBatch)
    by (repeat constructor; unfold int64_range; cbn; lia).
  split; [exact Hrange|].
  exact (execute_calls_only_named_targets sampleBatch (unvalidatedEngine okHal) Hrange).
Defined.

Lemma execute_clean_run_witness :
  mHal (validatedEngine okHal) = okHal /\
  resolution (mResources (validatedEngine okHal)) = (fun _ => (HWC2_ERROR_NONE, None)) /\
  errorCodes (snd (fst (execute sampleBatch (validatedEngine okHal)))) = [].
Proof.
  split; [reflexivity|]. split; [reflexivity|].
  apply (execute_clean_run
           (fun h : ScriptedHal => h = okHal)
           (fun r : ScriptedResources => resolution r = (fun _ => (HWC2_ERROR_NONE, None)))).
  - intros c h ->. split; reflexivity.
  - intros c r Hr. split; [|exact Hr].
    change (fst (resolution r c) = HWC2_ERROR_NONE). now rewrite Hr.
  - intros display v r Hr. exact Hr.
  - intros b r Hr. exact Hr.
  - intros b r Hr. exact Hr.
  - reflexivity.
  - reflexivity.
Defined.
